(** * Telegram MDML middleware: historical values, collections, projection

    A shallow embedding of [telegram_mdml.py].  The file has three parts:
    the embedding of the Python code (value classes, collections, entity
    projection, validation and textual form), the properties that the
    specification states of it, and further properties of the module.

    Conventions of the embedding.
    - A Python [str] is a [string]: a sequence of characters with code
      points below 256.
    - A naive [datetime] is the number of microseconds elapsed since
      [datetime.min] (0001-01-01 00:00:00); comparing two naive datetimes
      is comparing these numbers.
    - [Optional[T]] is [option T]; [None] is falsy, and so is the empty
      string; a [datetime] object is always truthy.
    - An exception is a value of [exn]; a computation that may raise has
      type [result A].
    Loading a file, the parser itself and the [__repr__] of the value
    classes, which formats dates, are not embedded. *)

From Stdlib Require Import List Bool Arith NArith ZArith Lia.
From Stdlib Require Import String Ascii Permutation Sorted DecimalString.
Import ListNotations.

Set Implicit Arguments.

(* ================================================================== *)
(** * Part I. The embedding                                            *)
(* ================================================================== *)

(** ** Dates *)

Definition datetime := N.

(** [datetime.min], the earliest representable datetime. *)
Definition datetime_min : datetime := 0%N.

(** ** Builtins on sequences *)

(** [sorted(l, key=key, reverse=reverse)].  Python's sort is stable, and
    with [reverse=True] the elements are ordered as if each comparison
    were reversed, equal keys still keeping their original order.  The
    result of a stable sort is determined by the keys and the original
    order, so that a stable insertion sort stands for it.
    [precedes reverse a b] says that key [a] goes strictly before key [b]. *)
Definition precedes (reverse : bool) (a b : N) : bool :=
  if reverse then (b <? a)%N else (a <? b)%N.

Section Sorted.
Variable A : Type.
Variable key : A -> N.
Variable reverse : bool.

Fixpoint insert (x : A) (l : list A) : list A :=
  match l with
  | [] => [x]
  | y :: ys =>
      if precedes reverse (key y) (key x) then y :: insert x ys
      else x :: y :: ys
  end.

Definition sorted (l : list A) : list A := fold_right insert [] l.

(** [in_order a b]: [b] may follow [a] in the result of the sort, that is,
    the key of [b] does not go strictly before the key of [a]. *)
Definition in_order (a b : A) : Prop :=
  precedes reverse (key b) (key a) = false.
End Sorted.

(** A list is truthy when it is not empty. *)
Definition truthy_list {A} (l : list A) : bool :=
  match l with [] => false | _ :: _ => true end.

Definition is_some {A} (o : option A) : bool :=
  match o with Some _ => true | None => false end.

Definition is_none {A} (o : option A) : bool := negb (is_some o).

(** [l[-1]] on a list known to be non-empty; [None] stands for the
    [IndexError] of the empty list, which the callers guard against. *)
Fixpoint last_item {A} (l : list A) : option A :=
  match l with
  | [] => None
  | [x] => Some x
  | _ :: l' => last_item l'
  end.

(** ** Historical values *)

(** [@dataclass HistoricalValue]. *)
Record HistoricalValue : Type := mkHistoricalValue {
  value : string;
  date : option datetime;
  details : option string;
  is_strikethrough : bool
}.

(** [UsernameValue(HistoricalValue)] adds no field. *)
Record UsernameValue : Type := mkUsernameValue {
  username_base :> HistoricalValue
}.

(** [InviteValue(HistoricalValue)] adds [hash]. *)
Record InviteValue : Type := mkInviteValue {
  invite_base :> HistoricalValue;
  hash : string
}.

(** Subclasses of [HistoricalValue]: what a collection reads of its
    elements are the inherited attributes [date] and [is_strikethrough]. *)
Class Historical (A : Type) : Type := as_historical : A -> HistoricalValue.

#[export] Instance Historical_base : Historical HistoricalValue := fun v => v.
#[export] Instance Historical_username : Historical UsernameValue := username_base.
#[export] Instance Historical_invite : Historical InviteValue := invite_base.

(** ** Historical collections *)

(** [HistoricalCollection]; [UsernameCollection] and [InviteCollection]
    are this class at the type of their elements. *)
Record HistoricalCollection (A : Type) : Type := mkCollection {
  values : list A
}.

Section Collection.
Context {A : Type} `{Historical A}.

Definition date_of (v : A) : option datetime := date (as_historical v).
Definition struck (v : A) : bool := is_strikethrough (as_historical v).

(** [lambda v: v.date if v.date else datetime.min] *)
Definition sort_key (v : A) : datetime :=
  match date_of v with
  | Some d => d
  | None => datetime_min
  end.

(** [HistoricalCollection.__init__] *)
Definition HistoricalCollection_init (vs : list A) : HistoricalCollection A :=
  {| values := sorted sort_key true vs |}.

(** [__len__] and [__bool__] *)
Definition len (c : HistoricalCollection A) : nat := List.length (values c).
Definition bool_of (c : HistoricalCollection A) : bool := (0 <? len c)%nat.

(** [lambda v: v.date], compared with [>] by [max] and with [<] by [min].
    Both are applied to lists filtered by [v.date is not None] only; on
    [None] Python's comparison would raise [TypeError], a case the filter
    excludes and that is mapped to [false] here. *)
Definition date_gt (a b : A) : bool :=
  match date_of a, date_of b with
  | Some x, Some y => (y <? x)%N
  | _, _ => false
  end.

Definition date_lt (a b : A) : bool :=
  match date_of a, date_of b with
  | Some x, Some y => (x <? y)%N
  | _, _ => false
  end.

(** [max(l, key=...)] and [min(l, key=...)]: the running best item is
    replaced only by a strictly better one, so the first best item wins.
    [None] stands for the [ValueError] of an empty sequence. *)
Fixpoint best_loop (better : A -> A -> bool) (best : A) (l : list A) : A :=
  match l with
  | [] => best
  | v :: l' => best_loop better (if better v best then v else best) l'
  end.

Definition py_max (l : list A) : option A :=
  match l with
  | [] => None
  | v :: l' => Some (best_loop date_gt v l')
  end.

Definition py_min (l : list A) : option A :=
  match l with
  | [] => None
  | v :: l' => Some (best_loop date_lt v l')
  end.

(** [HistoricalCollection.latest] *)
Definition latest (c : HistoricalCollection A) (allow_strikethrough : bool)
  : option A :=
  if negb (truthy_list (values c)) then None
  else
    let candidates :=
      if allow_strikethrough then values c
      else filter (fun v => negb (struck v)) (values c) in
    if negb (truthy_list candidates) then None
    else
      let with_dates := filter (fun v => is_some (date_of v)) candidates in
      let without_dates := filter (fun v => is_none (date_of v)) candidates in
      if truthy_list with_dates then py_max with_dates
      else if truthy_list without_dates then hd_error without_dates
      else None.

(** [HistoricalCollection.oldest] *)
Definition oldest (c : HistoricalCollection A) : option A :=
  if negb (truthy_list (values c)) then None
  else
    let with_dates := filter (fun v => is_some (date_of v)) (values c) in
    let without_dates := filter (fun v => is_none (date_of v)) (values c) in
    if truthy_list with_dates then py_min with_dates
    else if truthy_list without_dates then last_item without_dates
    else None.

(** [HistoricalCollection.active] *)
Definition active (c : HistoricalCollection A) : list A :=
  let active_values := filter (fun v => negb (struck v)) (values c) in
  sorted sort_key true active_values.
End Collection.

(** [InviteCollection.get_hashes] *)
Definition get_hashes (c : HistoricalCollection InviteValue)
    (allow_strikethrough : bool) : list string :=
  let vs := if allow_strikethrough then values c else active c in
  map hash vs.

(** ** Builtins on strings *)

Local Open Scope string_scope.

(** [s.startswith(p)] *)
Fixpoint startswith (s p : string) {struct p} : bool :=
  match p with
  | EmptyString => true
  | String a p' =>
      match s with
      | EmptyString => false
      | String b s' => Ascii.eqb a b && startswith s' p'
      end
  end.

(** [s[1:]] *)
Definition drop_first (s : string) : string :=
  match s with
  | EmptyString => EmptyString
  | String _ s' => s'
  end.

(** [sub in s] *)
Fixpoint contains (s sub : string) : bool :=
  startswith s sub ||
  match s with
  | EmptyString => false
  | String _ s' => contains s' sub
  end.

(** [s.replace(old, new)] for a non-empty [old]: the occurrences of [old]
    are found from left to right and do not overlap.  [skip] counts the
    characters of the current occurrence that are still to be dropped. *)
Fixpoint replace_from (old new : string) (skip : nat) (s : string) : string :=
  match s with
  | EmptyString => EmptyString
  | String c s' =>
      match skip with
      | S k => replace_from old new k s'
      | O =>
          if startswith s old
          then new ++ replace_from old new (String.length old - 1) s'
          else String c (replace_from old new 0 s')
      end
  end.

Definition replace (s old new : string) : string := replace_from old new 0 s.

Fixpoint lstrip_by (p : ascii -> bool) (s : string) : string :=
  match s with
  | EmptyString => EmptyString
  | String c s' => if p c then lstrip_by p s' else s
  end.

Fixpoint rstrip_by (p : ascii -> bool) (s : string) : string :=
  match s with
  | EmptyString => EmptyString
  | String c s' =>
      match rstrip_by p s' with
      | EmptyString => if p c then EmptyString else String c EmptyString
      | r => String c r
      end
  end.

Fixpoint mem_char (c : ascii) (chars : string) : bool :=
  match chars with
  | EmptyString => false
  | String d chars' => Ascii.eqb c d || mem_char c chars'
  end.

(** [s.strip(chars)] *)
Definition strip_chars (s chars : string) : string :=
  rstrip_by (fun c => mem_char c chars) (lstrip_by (fun c => mem_char c chars) s).

Definition code (c : ascii) : nat := nat_of_ascii c.

Definition in_range (lo hi : nat) (c : ascii) : bool :=
  (lo <=? code c)%nat && (code c <=? hi)%nat.

(** [c.isspace()] on code points below 256: TAB to CR, FS to US, space,
    NEL and the no-break space. *)
Definition is_space (c : ascii) : bool :=
  in_range 9 13 c || in_range 28 32 c || (code c =? 133)%nat || (code c =? 160)%nat.

(** [s.strip()] *)
Definition strip (s : string) : string := rstrip_by is_space (lstrip_by is_space s).

(** [s.lower()] on code points below 256: the ASCII capitals and the
    Latin-1 capitals (all of 0xC0..0xDE but the multiplication sign). *)
Definition lower_char (c : ascii) : ascii :=
  if in_range 65 90 c || (in_range 192 222 c && negb (code c =? 215)%nat)
  then ascii_of_nat (code c + 32)
  else c.

Fixpoint lower (s : string) : string :=
  match s with
  | EmptyString => EmptyString
  | String c s' => String (lower_char c) (lower s')
  end.

Definition is_digit (c : ascii) : bool := in_range 48 57 c.

(** The regex classes [[a-zA-Z0-9_]] and [[a-zA-Z0-9_-]]. *)
Definition is_word_char (c : ascii) : bool :=
  in_range 97 122 c || in_range 65 90 c || is_digit c || Ascii.eqb c "_".

Definition is_hash_char (c : ascii) : bool :=
  is_word_char c || Ascii.eqb c "-".

(** ** Regular expressions *)

(** [$] (without [re.MULTILINE]) matches at the end of the string and just
    before a newline that is the last character of the string. *)
Definition newline : ascii := ascii_of_nat 10.

Definition dollar (s : string) : bool :=
  match s with
  | EmptyString => true
  | String c EmptyString => Ascii.eqb c newline
  | _ => false
  end.

(** [re.match('^[cls]{lo,hi}$', s)] as a boolean, [hi = None] for no upper
    bound: at each position the matcher either stops, when at least [lo]
    characters were taken, and tries [$], or takes one more character of
    the class, when fewer than [hi] were. *)
Fixpoint match_repeat (cls : ascii -> bool) (lo : nat) (hi : option nat)
    (s : string) : bool :=
  ((lo =? 0)%nat && dollar s) ||
  match s with
  | EmptyString => false
  | String c s' =>
      cls c &&
      match hi with
      | Some 0 => false
      | Some (S h) => match_repeat cls (lo - 1) (Some h) s'
      | None => match_repeat cls (lo - 1) None s'
      end
  end.

(** [re.match(r'^[a-zA-Z0-9_]{5,32}$', s)] *)
Definition re_match_username (s : string) : bool :=
  match_repeat is_word_char 5 (Some 32) s.

(** [re.match(r'^[a-zA-Z0-9_-]+$', s)] *)
Definition re_match_hash (s : string) : bool :=
  match_repeat is_hash_char 1 None s.

(** ** Exceptions *)

Inductive exn_class : Type :=
  | ValueError
  | TelegramMDMLError
  | ValidationError
  | MissingFieldError
  | InvalidFieldError
  | InvalidUsernameError
  | InvalidInviteError
  | InvalidStatusError
  | InvalidTypeError.

Definition exn_class_eqb (a b : exn_class) : bool :=
  match a, b with
  | ValueError, ValueError
  | TelegramMDMLError, TelegramMDMLError
  | ValidationError, ValidationError
  | MissingFieldError, MissingFieldError
  | InvalidFieldError, InvalidFieldError
  | InvalidUsernameError, InvalidUsernameError
  | InvalidInviteError, InvalidInviteError
  | InvalidStatusError, InvalidStatusError
  | InvalidTypeError, InvalidTypeError => true
  | _, _ => false
  end.

(** The base class of each exception class, [None] for the builtin
    [Exception]. *)
Definition base_class (c : exn_class) : option exn_class :=
  match c with
  | ValueError => None
  | TelegramMDMLError => None
  | ValidationError => Some TelegramMDMLError
  | MissingFieldError => Some TelegramMDMLError
  | InvalidFieldError => Some TelegramMDMLError
  | InvalidUsernameError => Some InvalidFieldError
  | InvalidInviteError => Some InvalidFieldError
  | InvalidStatusError => Some InvalidFieldError
  | InvalidTypeError => Some InvalidFieldError
  end.

Fixpoint issubclass_upto (depth : nat) (c target : exn_class) : bool :=
  exn_class_eqb c target ||
  match depth, base_class c with
  | S d, Some b => issubclass_upto d b target
  | _, _ => false
  end.

(** The hierarchy is two levels deep below [TelegramMDMLError]. *)
Definition issubclass (c target : exn_class) : bool := issubclass_upto 2 c target.

Record exn : Type := mkExn {
  exn_cls : exn_class;
  exn_msg : string
}.

(** [str(e)] *)
Definition str_exn (e : exn) : string := exn_msg e.

Inductive result (A : Type) : Type :=
  | Ok (a : A)
  | Raise (e : exn).

Arguments Ok {A} a.
Arguments Raise {A} e.

Definition bind {A B} (c : result A) (k : A -> result B) : result B :=
  match c with
  | Ok a => k a
  | Raise e => Raise e
  end.

Notation "x <- c ;; k" := (bind c (fun x => k))
  (at level 61, c at next level, right associativity).

(** [try: c  except cls1 as e: h1 e  except cls2 as e: h2 e ...]: the first
    clause whose class the exception is an instance of handles it; an
    exception no clause matches propagates. *)
Fixpoint handle {A} (e : exn) (handlers : list (exn_class * (exn -> result A)))
    : result A :=
  match handlers with
  | [] => Raise e
  | (cls, h) :: rest =>
      if issubclass (exn_cls e) cls then h e else handle e rest
  end.

Definition try_except {A} (c : result A)
    (handlers : list (exn_class * (exn -> result A))) : result A :=
  match c with
  | Ok a => Ok a
  | Raise e => handle e handlers
  end.

(** [for x in xs: body], the loop body transforming the loop's state. *)
Fixpoint for_each {S X} (xs : list X) (body : S -> X -> result S) (s : S)
    : result S :=
  match xs with
  | [] => Ok s
  | x :: xs' => s' <- body s x ;; for_each xs' body s'
  end.

(** ** [int(s)] *)

Definition digit_value (c : ascii) : Z := Z.of_nat (code c - 48).

(** Decimal digits, where single underscores may separate digits.
    [after_digit] tells whether the previous character was a digit. *)
Fixpoint parse_digits (acc : Z) (after_digit : bool) (s : string) : option Z :=
  match s with
  | EmptyString => if after_digit then Some acc else None
  | String c s' =>
      if is_digit c then parse_digits (10 * acc + digit_value c) true s'
      else if Ascii.eqb c "_" && after_digit then parse_digits acc false s'
      else None
  end.

(** An integer literal in base 10: one optional sign, then the digits. *)
Definition parse_literal (body : string) : option Z :=
  match body with
  | String c rest =>
      if Ascii.eqb c "-" then option_map Z.opp (parse_digits 0 false rest)
      else if Ascii.eqb c "+" then parse_digits 0 false rest
      else parse_digits 0 false body
  | EmptyString => None
  end.

(** The whitespace that [int] ignores around a literal: TAB to CR and the
    space, and, beyond ASCII, NEL and the no-break space (which [int] reads
    as spaces).  Unlike [str.strip], [int] does not ignore FS to US. *)
Definition is_int_space (c : ascii) : bool :=
  in_range 9 13 c || (code c =? 32)%nat || (code c =? 133)%nat
  || (code c =? 160)%nat.

(** [sys.get_int_max_str_digits()], at the default of the interpreter: the
    greatest number of digits that [int] converts; 0 stands for no limit. *)
Definition int_max_str_digits : nat := 4300.

(** The number of digits of a text, underscores and sign not counted. *)
Fixpoint count_digits (s : string) : nat :=
  match s with
  | EmptyString => 0
  | String c s' => if is_digit c then S (count_digits s') else count_digits s'
  end.

(** [int(s)] in base 10: the whitespace around the literal is ignored; a
    text that is not a literal raises [ValueError], and so does a literal
    of more digits than the limit.  The message of the [ValueError] is not
    modelled: [get_id] does not read it. *)
Definition py_int (s : string) : result Z :=
  let body := rstrip_by is_int_space (lstrip_by is_int_space s) in
  match parse_literal body with
  | Some n =>
      if (0 <? int_max_str_digits)%nat
         && (int_max_str_digits <? count_digits body)%nat
      then Raise (mkExn ValueError
                    "Exceeds the limit for integer string conversion")
      else Ok n
  | None => Raise (mkExn ValueError ("invalid literal for int() with base 10"))
  end.

(** [repr] of a string (the [!r] conversion of the f-strings) is used in
    error messages only and is left abstract. *)
Class PyRepr : Type := repr : string -> string.

(** ** Validated value classes *)

Section Values.
Context `{PyRepr}.

(** [UsernameValue(value, date, details, is_strikethrough)]: the
    generated [__init__] followed by [__post_init__]. *)
Definition UsernameValue_new (value : string) (date : option datetime)
    (details : option string) (is_strikethrough : bool)
    : result UsernameValue :=
  let value := if startswith value "@" then drop_first value else value in
  if negb (re_match_username value) then
    Raise (mkExn InvalidUsernameError
             ("Invalid username format: " ++ repr value ++ ". " ++
              "Must be 5-32 characters, alphanumeric and underscore only."))
  else
    Ok (mkUsernameValue (mkHistoricalValue value date details is_strikethrough)).

(** [InviteValue(value, date, details, is_strikethrough)] *)
Definition InviteValue_new (value : string) (date : option datetime)
    (details : option string) (is_strikethrough : bool)
    : result InviteValue :=
  let '(value, hash) :=
    if startswith value "https://t.me/+" then
      (value, replace value "https://t.me/+" "")
    else if startswith value "http://t.me/+" then
      (value, replace value "http://t.me/+" "")
    else if startswith value "+" then
      ("https://t.me/" ++ value, drop_first value)
    else
      ("https://t.me/+" ++ value, value) in
  if negb (re_match_hash hash) then
    Raise (mkExn InvalidInviteError
             ("Invalid invite hash format: " ++ repr hash ++ ". " ++
              "Must contain only alphanumeric characters, dashes, and underscores."))
  else
    Ok (mkInviteValue (mkHistoricalValue value date details is_strikethrough) hash).
End Values.

(** [UsernameValue.with_at] *)
Definition with_at (u : UsernameValue) : string := "@" ++ value u.

(** [InviteValue.url] *)
Definition url (i : InviteValue) : string := value i.

(** ** The parsed-document interface

    [Document], [Field] and [FieldValue] belong to the external [mdml]
    parser.  The embedding keeps the attributes and the two lookups the
    middleware reads; instances of these classes are taken to be truthy,
    as objects are by default. *)
Module mdml.
Record FieldValue : Type := mkFieldValue {
  value : string;
  datetime_obj : option datetime;
  details : option string;
  is_strikethrough : bool;
  link_url : option string
}.

Record Field : Type := mkField {
  values : list FieldValue
}.

Record Document : Type := mkDocument {
  get_field : string -> option Field;
  get_value : string -> option FieldValue
}.
End mdml.

(** ** The entity *)

Record TelegramEntity : Type := mkTelegramEntity {
  doc : mdml.Document;
  file_path : option string
}.

Definition VALID_TYPES : list string := ["bot"; "user"; "channel"; "group"; "unknown"].

(** [', '.join(sorted(self.VALID_TYPES))] *)
Definition VALID_TYPES_joined : string := "bot, channel, group, unknown, user".

Definition no_identifier_warning : string :=
  "Entity has no identifier (id, username, or invite)".

(** Truthiness of an optional string: neither [None] nor empty. *)
Definition truthy_text (o : option string) : bool :=
  match o with
  | Some (String _ _) => true
  | _ => false
  end.

Section Entity.
Context `{PyRepr}.

(** [TelegramEntity.get_id] *)
Definition get_id (self : TelegramEntity) : result (option Z) :=
  match mdml.get_value (doc self) "id" with
  | None => Ok None
  | Some value =>
      try_except
        (let id_str := strip (strip_chars (mdml.value value) "`") in
         n <- py_int id_str ;;
         Ok (Some n))
        [(ValueError, fun _ =>
            Raise (mkExn InvalidFieldError
                     ("Invalid ID format: " ++ repr (mdml.value value))))]
  end.

(** [TelegramEntity.get_type] *)
Definition get_type (self : TelegramEntity) : result string :=
  match mdml.get_value (doc self) "type" with
  | None => Raise (mkExn MissingFieldError "Field 'type' is required")
  | Some value =>
      let entity_type := lower (strip (strip_chars (mdml.value value) "`")) in
      if negb (existsb (String.eqb entity_type) VALID_TYPES) then
        Raise (mkExn InvalidTypeError
                 ("Invalid type: " ++ repr entity_type ++ ". " ++
                  "Must be one of: " ++ VALID_TYPES_joined))
      else Ok entity_type
  end.

(** The body of the loop of [get_usernames]; [usernames] is the list
    built so far. *)
Definition get_usernames_body (usernames : list UsernameValue)
    (field_value : mdml.FieldValue) : result (list UsernameValue) :=
  let raw_value := strip (strip_chars (mdml.value field_value) "`") in
  if negb (startswith raw_value "@") then Ok usernames
  else
    try_except
      (username <- UsernameValue_new raw_value
                     (mdml.datetime_obj field_value)
                     (mdml.details field_value)
                     (mdml.is_strikethrough field_value) ;;
       Ok (usernames ++ [username])%list)
      [(InvalidUsernameError, fun _ => Ok usernames)].

(** [TelegramEntity.get_usernames] *)
Definition get_usernames (self : TelegramEntity)
    : result (HistoricalCollection UsernameValue) :=
  match mdml.get_field (doc self) "username" with
  | None => Ok (HistoricalCollection_init [])
  | Some field =>
      usernames <- for_each (mdml.values field) get_usernames_body [] ;;
      Ok (HistoricalCollection_init usernames)
  end.

(** [TelegramEntity.get_username] *)
Definition get_username (self : TelegramEntity) (allow_strikethrough : bool)
    : result (option UsernameValue) :=
  c <- get_usernames self ;;
  Ok (latest c allow_strikethrough).

(** The body of the loop of [get_invites]. *)
Definition get_invites_body (invites : list InviteValue)
    (field_value : mdml.FieldValue) : result (list InviteValue) :=
  let raw_value :=
    if truthy_text (mdml.link_url field_value) then mdml.link_url field_value
    else if truthy_text (Some (mdml.value field_value)) then
      Some (strip (strip_chars (mdml.value field_value) "`"))
    else None in
  match raw_value with
  | Some (String _ _ as raw_value) =>
      if negb (contains raw_value "t.me/+") && negb (startswith raw_value "+")
      then Ok invites
      else
        try_except
          (invite <- InviteValue_new raw_value
                       (mdml.datetime_obj field_value)
                       (mdml.details field_value)
                       (mdml.is_strikethrough field_value) ;;
           Ok (invites ++ [invite])%list)
          [(InvalidInviteError, fun _ => Ok invites)]
  | _ => Ok invites
  end.

(** [TelegramEntity.get_invites] *)
Definition get_invites (self : TelegramEntity)
    : result (HistoricalCollection InviteValue) :=
  match mdml.get_field (doc self) "invite" with
  | None => Ok (HistoricalCollection_init [])
  | Some field =>
      invites <- for_each (mdml.values field) get_invites_body [] ;;
      Ok (HistoricalCollection_init invites)
  end.

(** [TelegramEntity.validate]; [warnings] is threaded through the three
    checks. *)
Definition validate (self : TelegramEntity) : result (list string) :=
  let warnings : list string := [] in
  warnings <-
    try_except (_ <- get_type self ;; Ok warnings)
      [(MissingFieldError, fun e => Ok (warnings ++ [str_exn e])%list);
       (InvalidTypeError, fun e => Ok (warnings ++ [str_exn e])%list)] ;;
  warnings <-
    try_except (_ <- get_id self ;; Ok warnings)
      [(InvalidFieldError, fun e => Ok (warnings ++ [str_exn e])%list)] ;;
  has_id <-
    try_except (id <- get_id self ;; Ok (is_some id))
      [(InvalidFieldError, fun _ => Ok false)] ;;
  usernames <- get_usernames self ;;
  let has_username := (0 <? len usernames)%nat in
  invites <- get_invites self ;;
  let has_invite := (0 <? len invites)%nat in
  if negb has_id && negb has_username && negb has_invite then
    Ok (warnings ++ [no_identifier_warning])%list
  else Ok warnings.
End Entity.

(** ** Vocabulary of the statements *)

Section Vocabulary.
Context {A : Type} `{Historical A}.

Definition dated (v : A) : bool := is_some (date_of v).
Definition undated (v : A) : bool := is_none (date_of v).

(** [v] carries exactly the date [d]. *)
Definition has_date (d : datetime) (v : A) : bool :=
  match date_of v with
  | Some x => (x =? d)%N
  | None => false
  end.

(** [v] passes the strikethrough filter of [latest]. *)
Definition is_candidate (allow_strikethrough : bool) (v : A) : bool :=
  allow_strikethrough || negb (struck v).

(** The comparison of [max] ([reverse = true]) and of [min]
    ([reverse = false]) on dates, in one definition. *)
Definition better_by (reverse : bool) (a b : A) : bool :=
  match date_of a, date_of b with
  | Some x, Some y => precedes reverse x y
  | _, _ => false
  end.

(** [x] occurs in [l] at an earlier position than [y]. *)
Definition occurs_before (x y : A) (l : list A) : Prop :=
  exists l1 l2 l3, l = (l1 ++ x :: l2 ++ y :: l3)%list.
End Vocabulary.

(** Every character of [s] satisfies [p]; some character does. *)
Fixpoint all_chars (p : ascii -> bool) (s : string) : bool :=
  match s with
  | EmptyString => true
  | String c s' => p c && all_chars p s'
  end.

Fixpoint any_char (p : ascii -> bool) (s : string) : bool :=
  match s with
  | EmptyString => false
  | String c s' => p c || any_char p s'
  end.

(** The integer that a run of decimal digits denotes, most significant
    digit first. *)
Fixpoint decimal_from (acc : Z) (s : string) : Z :=
  match s with
  | EmptyString => acc
  | String c s' => decimal_from (10 * acc + digit_value c) s'
  end.

Definition decimal (s : string) : Z := decimal_from 0 s.

(** A non-empty run of decimal digits. *)
Definition is_digits (s : string) : bool :=
  all_chars is_digit s && negb (String.eqb s "").

(** Runs of digits separated by single underscores. *)
Inductive digit_groups : string -> Prop :=
  | groups_last (d : string) :
      is_digits d = true -> digit_groups d
  | groups_more (d rest : string) :
      is_digits d = true -> digit_groups rest ->
      digit_groups (d ++ String "_" rest).

(** The integer literals: digit groups after at most one sign. *)
Inductive int_literal : string -> Prop :=
  | literal_unsigned (s : string) : digit_groups s -> int_literal s
  | literal_plus (s : string) : digit_groups s -> int_literal (String "+" s)
  | literal_minus (s : string) : digit_groups s -> int_literal (String "-" s).

Fixpoint remove_underscores (s : string) : string :=
  match s with
  | EmptyString => EmptyString
  | String c s' =>
      if Ascii.eqb c "_" then remove_underscores s'
      else String c (remove_underscores s')
  end.

(** The integer that a literal denotes: its digits read in base 10, the
    underscores left out, negated after a minus sign. *)
Definition literal_value (s : string) : Z :=
  match s with
  | String c rest =>
      if Ascii.eqb c "-" then (- decimal (remove_underscores rest))%Z
      else if Ascii.eqb c "+" then decimal (remove_underscores rest)
      else decimal (remove_underscores s)
  | EmptyString => 0%Z
  end.

(** The text of a field value once the backticks and the whitespace
    around it are stripped: [value.strip('`').strip()]. *)
Definition raw_text (field_value : mdml.FieldValue) : string :=
  strip (strip_chars (mdml.value field_value) "`").

(** The elements of [l] on which [f] succeeds, in order. *)
Fixpoint filter_map {X Y : Type} (f : X -> option Y) (l : list X) : list Y :=
  match l with
  | [] => []
  | x :: l' =>
      match f x with
      | Some y => y :: filter_map f l'
      | None => filter_map f l'
      end
  end.

(** The handle projection as the specification words it: an item whose
    stripped text does not start with the marker is skipped, an item that
    fails the validation of handles is dropped, any other item gives its
    handle value. *)
Definition spec_handle_of `{PyRepr} (field_value : mdml.FieldValue)
    : option UsernameValue :=
  if startswith (raw_text field_value) "@" then
    match UsernameValue_new (raw_text field_value)
            (mdml.datetime_obj field_value) (mdml.details field_value)
            (mdml.is_strikethrough field_value) with
    | Ok u => Some u
    | Raise _ => None
    end
  else None.

(** ** Sample data *)

(** An undated value followed by a value dated [datetime.min]. *)
Definition undated_a : HistoricalValue := mkHistoricalValue "a" None None false.
Definition min_dated_b : HistoricalValue :=
  mkHistoricalValue "b" (Some datetime_min) None false.

(** [InviteValue('aaa')] and [InviteValue('bbb', date=datetime.min)]. *)
Definition invite_aaa : InviteValue :=
  mkInviteValue (mkHistoricalValue "https://t.me/+aaa" None None false) "aaa".
Definition invite_bbb : InviteValue :=
  mkInviteValue
    (mkHistoricalValue "https://t.me/+bbb" (Some datetime_min) None false) "bbb".

(** A history whose entries are all superseded. *)
Definition superseded_history : list HistoricalValue :=
  [mkHistoricalValue "nodate" None None true;
   mkHistoricalValue "older" (Some 5%N) None true;
   mkHistoricalValue "newer" (Some 10%N) None true].

(** A history with two current entries sharing the latest date. *)
Definition tied_history : list HistoricalValue :=
  [mkHistoricalValue "struck" (Some 20%N) None true;
   mkHistoricalValue "first" (Some 20%N) None false;
   mkHistoricalValue "nodate" None None false;
   mkHistoricalValue "second" (Some 20%N) None false;
   mkHistoricalValue "earlier" (Some 10%N) None false].

(** [v] with its strikethrough flag set. *)
Definition strike_out (v : HistoricalValue) : HistoricalValue :=
  mkHistoricalValue (value v) (date v) (details v) true.

(** A stand-in for [repr] on the samples: the text between single
    quotes. *)
Definition quoting : PyRepr := fun s => "'" ++ s ++ "'".

(** A field value that is plain text: no date, no details, no
    strikethrough, no link. *)
Definition plain (text : string) : mdml.FieldValue :=
  mdml.mkFieldValue text None None false None.

Fixpoint lookup_field (name : string) (fields : list (string * list mdml.FieldValue))
    : option (list mdml.FieldValue) :=
  match fields with
  | [] => None
  | (n, vs) :: rest => if String.eqb n name then Some vs else lookup_field name rest
  end.

(** A document given by its fields; the single value of a field is its
    first value. *)
Definition document_of (fields : list (string * list mdml.FieldValue))
    : mdml.Document :=
  {| mdml.get_field := fun name => option_map mdml.mkField (lookup_field name fields);
     mdml.get_value := fun name =>
       match lookup_field name fields with
       | Some (v :: _) => Some v
       | _ => None
       end |}.

Definition entity_of (fields : list (string * list mdml.FieldValue))
    : TelegramEntity :=
  mkTelegramEntity (document_of fields) None.

(** [id: `-5`] *)
Definition signed_id_entity : TelegramEntity :=
  entity_of [("type", [plain "channel"]); ("id", [plain "`-5`"])].

(** [id: `123456789`] and nothing else that identifies the entity. *)
Definition numeric_id_entity : TelegramEntity :=
  entity_of [("type", [plain "channel"]); ("id", [plain "`123456789`"])].

(** [id: `not_a_number`] and nothing else that identifies the entity. *)
Definition unparsable_id_entity : TelegramEntity :=
  entity_of [("type", [plain "channel"]); ("id", [plain "`not_a_number`"])].

(** The text of [n] times the character [c]. *)
Fixpoint repeat_char (c : ascii) (n : nat) : string :=
  match n with
  | O => EmptyString
  | S n' => String c (repeat_char c n')
  end.

(** An [id] of 4301 digits, one more than the limit of [int]. *)
Definition long_id_entity : TelegramEntity :=
  entity_of [("type", [plain "channel"]); ("id", [plain (repeat_char "1" 4301)])].

(** One handle and one placeholder. *)
Definition mixed_handles_entity : TelegramEntity :=
  entity_of [("type", [plain "channel"]);
             ("username", [plain "`@valid123`"; plain "`notahandle`"])].

(** ** The status history *)

(** [StatusValue(HistoricalValue)] adds [reason] and [text]. *)
Record StatusValue : Type := mkStatusValue {
  status_base :> HistoricalValue;
  reason : option string;
  text : option string
}.

#[export] Instance Historical_status : Historical StatusValue := status_base.

Definition VALID_STATUSES : list string :=
  ["active"; "unknown"; "banned"; "deleted"; "id_mismatch"].

(** [', '.join(sorted(self.VALID_STATUSES))] *)
Definition VALID_STATUSES_joined : string :=
  "active, banned, deleted, id_mismatch, unknown".

(** [StatusValue(value, date, details, is_strikethrough, reason, text)] *)
Definition StatusValue_new `{PyRepr} (value : string) (date : option datetime)
    (details : option string) (is_strikethrough : bool)
    (reason text : option string) : result StatusValue :=
  let value := lower value in
  if negb (existsb (String.eqb value) VALID_STATUSES) then
    Raise (mkExn InvalidStatusError
             ("Invalid status: " ++ repr value ++ ". " ++
              "Must be one of: " ++ VALID_STATUSES_joined))
  else
    Ok (mkStatusValue (mkHistoricalValue value date details is_strikethrough)
          reason text).

(** [StatusCollection.has_status] *)
Definition has_status (c : HistoricalCollection StatusValue) (status : string)
    : bool :=
  existsb (fun v : StatusValue => String.eqb (value v) status) (values c).

(** The nested sub-fields of a field value, [field_value.sub_items]: an
    optional dict from sub-field names to field values.  The attribute
    belongs to the external class; it is read through [sub_items] here, a
    dict being the list of its items, looked up by key. *)
Class SubItems : Type :=
  sub_items : mdml.FieldValue -> option (list (string * mdml.FieldValue)).

Fixpoint dict_get (key : string) (items : list (string * mdml.FieldValue))
    : option mdml.FieldValue :=
  match items with
  | [] => None
  | (k, v) :: rest => if String.eqb k key then Some v else dict_get key rest
  end.

Section Statuses.
Context `{PyRepr} `{SubItems}.

(** The body of the loop of [get_statuses]. *)
Definition get_statuses_body (statuses : list StatusValue)
    (field_value : mdml.FieldValue) : result (list StatusValue) :=
  let raw_value := lower (strip (strip_chars (mdml.value field_value) "`")) in
  let reason : option string := None in
  let text : option string := None in
  let '(reason, text) :=
    match sub_items field_value with
    | Some ((_ :: _) as items) =>
        (match dict_get "reason" items with
         | Some sub => Some (strip (strip_chars (mdml.value sub) "`"))
         | None => reason
         end,
         match dict_get "text" items with
         | Some sub => Some (strip (strip_chars (mdml.value sub) "`"))
         | None => text
         end)
    | _ => (reason, text)
    end in
  try_except
    (status <- StatusValue_new raw_value
                 (mdml.datetime_obj field_value)
                 (mdml.details field_value)
                 (mdml.is_strikethrough field_value)
                 reason text ;;
     Ok (statuses ++ [status])%list)
    [(InvalidStatusError, fun _ => Ok statuses)].

(** [TelegramEntity.get_statuses] *)
Definition get_statuses (self : TelegramEntity)
    : result (HistoricalCollection StatusValue) :=
  match mdml.get_field (doc self) "status" with
  | None => Ok (HistoricalCollection_init [])
  | Some field =>
      statuses <- for_each (mdml.values field) get_statuses_body [] ;;
      Ok (HistoricalCollection_init statuses)
  end.

(** [TelegramEntity.get_status] *)
Definition get_status (self : TelegramEntity) (allow_strikethrough : bool)
    : result (option StatusValue) :=
  c <- get_statuses self ;;
  Ok (latest c allow_strikethrough).
End Statuses.

(** ** The other accessors of the entity *)

(** [TelegramEntity.has_field] *)
Definition has_field (self : TelegramEntity) (field_name : string) : bool :=
  is_some (mdml.get_field (doc self) field_name).

(** [TelegramEntity.get_invite] *)
Definition get_invite `{PyRepr} (self : TelegramEntity)
    (allow_strikethrough : bool) : result (option InviteValue) :=
  c <- get_invites self ;;
  Ok (latest c allow_strikethrough).

(** [str(n)] of an integer. *)
Definition str_int (n : Z) : string := NilZero.string_of_int (Z.to_int n).

(** [Path.name], the final component of a path, is left abstract. *)
Class PathName : Type := path_name : string -> string.

(** [TelegramEntity.__repr__]; an integer is truthy when it is not zero,
    and a handle value, as a path, is always truthy. *)
Definition TelegramEntity_repr `{PyRepr} `{PathName} (self : TelegramEntity)
    : result string :=
  let parts : list string := [] in
  entity_id <- get_id self ;;
  let parts :=
    match entity_id with
    | Some n => if (n =? 0)%Z then parts else (parts ++ [("id=" ++ str_int n)%string])%list
    | None => parts
    end in
  parts <-
    try_except
      (entity_type <- get_type self ;;
       Ok (parts ++ [("type=" ++ entity_type)%string])%list)
      [(MissingFieldError, fun _ => Ok parts);
       (InvalidTypeError, fun _ => Ok parts)] ;;
  username <- get_username self false ;;
  let parts :=
    match username with
    | Some u => (parts ++ [("username=" ++ with_at u)%string])%list
    | None => parts
    end in
  let parts :=
    match file_path self with
    | Some path => (parts ++ [("file=" ++ path_name path)%string])%list
    | None => parts
    end in
  Ok ("TelegramEntity(" ++ String.concat ", " parts ++ ")").

(** ** Vocabulary of the further statements *)

(** The text made of one newline. *)
Definition newline_text : string := String newline EmptyString.

(** The url and the hash that [InviteValue] derives from its input,
    before the hash is validated. *)
Definition invite_parts (value : string) : string * string :=
  if startswith value "https://t.me/+" then
    (value, replace value "https://t.me/+" "")
  else if startswith value "http://t.me/+" then
    (value, replace value "http://t.me/+" "")
  else if startswith value "+" then
    ("https://t.me/" ++ value, drop_first value)
  else
    ("https://t.me/+" ++ value, value).

(** The text of an item that [get_invites] goes by: the link target when
    there is one, else the stripped text when the text is not empty. *)
Definition invite_text (field_value : mdml.FieldValue) : option string :=
  if truthy_text (mdml.link_url field_value) then mdml.link_url field_value
  else if truthy_text (Some (mdml.value field_value)) then
    Some (raw_text field_value)
  else None.

(** The stripped text of the sub-field [key] of an item, when the item
    has sub-fields and [key] is one of them. *)
Definition sub_text `{SubItems} (field_value : mdml.FieldValue) (key : string)
    : option string :=
  match sub_items field_value with
  | Some ((_ :: _) as items) =>
      match dict_get key items with
      | Some sub => Some (raw_text sub)
      | None => None
      end
  | _ => None
  end.

(** The invite projection of one item, in the manner of
    [spec_handle_of]: the item gives an invite value when its text is
    invite-shaped and passes the validation of invites. *)
Definition spec_invite_of `{PyRepr} (field_value : mdml.FieldValue)
    : option InviteValue :=
  match invite_text field_value with
  | Some raw =>
      if contains raw "t.me/+" || startswith raw "+" then
        match InviteValue_new raw
                (mdml.datetime_obj field_value) (mdml.details field_value)
                (mdml.is_strikethrough field_value) with
        | Ok i => Some i
        | Raise _ => None
        end
      else None
  | None => None
  end.

(** The status projection of one item. *)
Definition spec_status_of `{PyRepr} `{SubItems} (field_value : mdml.FieldValue)
    : option StatusValue :=
  match StatusValue_new (lower (raw_text field_value))
          (mdml.datetime_obj field_value) (mdml.details field_value)
          (mdml.is_strikethrough field_value)
          (sub_text field_value "reason") (sub_text field_value "text") with
  | Ok sv => Some sv
  | Raise _ => None
  end.

(** The list of zero or one element that an option stands for. *)
Definition option_list {Y : Type} (o : option Y) : list Y :=
  match o with
  | Some y => [y]
  | None => []
  end.

(** ** Further sample data *)

(** [type: `CHANNEL`] *)
Definition shouting_type_entity : TelegramEntity :=
  entity_of [("type", [plain "`CHANNEL`"])].

(** An [invite] field with a markdown link, a bare hash after [+] that is
    struck through, and a placeholder. *)
Definition invite_entity : TelegramEntity :=
  entity_of
    [("type", [plain "channel"]);
     ("invite",
      [mdml.mkFieldValue "Join us" (Some 20%N) None false
         (Some "https://t.me/+InviteHash123");
       mdml.mkFieldValue "`+OldInvite`" (Some 10%N) None true None;
       plain "no invite yet"])].

(** An [invite] field that holds a raw hash. *)
Definition raw_hash_entity : TelegramEntity :=
  entity_of [("type", [plain "channel"]); ("invite", [plain "`AbCdEfGh`"])].

(** A [status] field with a banned entry, an entry in capitals and an
    unknown word. *)
Definition status_entity : TelegramEntity :=
  entity_of
    [("type", [plain "channel"]);
     ("status",
      [mdml.mkFieldValue "`banned`" (Some 20%N) None false None;
       mdml.mkFieldValue "`Active`" (Some 10%N) None true None;
       plain "gone"])].

(** Sub-fields for the samples: the banned entry carries a reason. *)
Definition sample_sub_items : SubItems :=
  fun field_value =>
    if String.eqb (mdml.value field_value) "`banned`"
    then Some [("reason", plain "`copyright`")]
    else None.

(** A stand-in for [Path.name] on the samples. *)
Definition whole_path : PathName := fun path => path.

(** The handle value of [@valid123]. *)
Definition valid123 : UsernameValue :=
  mkUsernameValue (mkHistoricalValue "valid123" None None false).

(** The invite value of [+AbC-_d]. *)
Definition invite_AbC : InviteValue :=
  mkInviteValue (mkHistoricalValue "https://t.me/+AbC-_d" None None false) "AbC-_d".

(* ================================================================== *)
(** * Part II. Properties                                              *)
(* ================================================================== *)

(** ** The stable sort *)

Section SortedFacts.
Variable A : Type.
Variable key : A -> N.
Variable reverse : bool.

Lemma precedes_asym (a b : N) :
  precedes reverse a b = true -> precedes reverse b a = false.
Proof.
  unfold precedes; destruct reverse; rewrite N.ltb_lt, N.ltb_ge; lia.
Qed.

Local Abbreviation in_order := (in_order key reverse).

Lemma in_order_trans (a b c : A) : in_order a b -> in_order b c -> in_order a c.
Proof.
  unfold in_order, precedes; destruct reverse; rewrite !N.ltb_ge; lia.
Qed.

Lemma insert_perm (x : A) (l : list A) :
  Permutation (insert key reverse x l) (x :: l).
Proof.
  induction l as [|y ys IH]; simpl; [reflexivity|].
  destruct (precedes reverse (key y) (key x)); [|reflexivity].
  rewrite IH. apply perm_swap.
Qed.

Lemma sorted_perm (l : list A) : Permutation (sorted key reverse l) l.
Proof.
  induction l as [|x l IH]; simpl; [reflexivity|].
  rewrite insert_perm. now constructor.
Qed.

Lemma sorted_In (l : list A) (x : A) : In x (sorted key reverse l) <-> In x l.
Proof.
  split; apply Permutation_in; [|symmetry]; apply sorted_perm.
Qed.

Lemma insert_ordered (x : A) (l : list A) :
  StronglySorted in_order l -> StronglySorted in_order (insert key reverse x l).
Proof.
  induction 1 as [|y ys Hs IH Hall]; simpl.
  - repeat constructor.
  - destruct (precedes reverse (key y) (key x)) eqn:E.
    + constructor; [exact IH|].
      rewrite Forall_forall; intros z Hz.
      apply (Permutation_in _ (insert_perm x ys)) in Hz.
      destruct Hz as [<-|Hz].
      * now apply precedes_asym.
      * rewrite Forall_forall in Hall; now apply Hall.
    + constructor; [now constructor|].
      constructor; [exact E|].
      eapply Forall_impl; [|exact Hall].
      intros z Hz. now apply in_order_trans with y.
Qed.

Lemma sorted_ordered (l : list A) : StronglySorted in_order (sorted key reverse l).
Proof.
  induction l; simpl; [constructor | now apply insert_ordered].
Qed.

(** Stability: the elements picked by a predicate that only holds of
    elements with one and the same key keep their original order. *)
Lemma insert_filter (p : A -> bool) (x : A) (l : list A) :
  (forall a b, p a = true -> p b = true -> key a = key b) ->
  filter p (insert key reverse x l) = filter p (x :: l).
Proof.
  intros Hp. induction l as [|y ys IH]; simpl; [reflexivity|].
  destruct (precedes reverse (key y) (key x)) eqn:E; [|reflexivity].
  simpl in *. rewrite IH.
  destruct (p x) eqn:Px, (p y) eqn:Py; try reflexivity.
  exfalso. rewrite (Hp y x Py Px) in E.
  unfold precedes in E; destruct reverse; rewrite N.ltb_lt in E; lia.
Qed.

Lemma sorted_stable (p : A -> bool) (l : list A) :
  (forall a b, p a = true -> p b = true -> key a = key b) ->
  filter p (sorted key reverse l) = filter p l.
Proof.
  intros Hp. induction l as [|x l IH]; [reflexivity|].
  change (sorted key reverse (x :: l)) with (insert key reverse x (sorted key reverse l)).
  rewrite insert_filter by exact Hp. simpl. now rewrite IH.
Qed.

(** Sorting a list that is in order already changes nothing. *)
Lemma sorted_of_ordered (l : list A) :
  StronglySorted in_order l -> sorted key reverse l = l.
Proof.
  induction 1 as [|x l Hs IH Hall]; [reflexivity|].
  simpl. rewrite IH. destruct l as [|y ys]; [reflexivity|].
  simpl. inversion Hall as [|? ? Hxy _]; subst.
  unfold in_order in Hxy. now rewrite Hxy.
Qed.

Lemma filter_ordered (p : A -> bool) (l : list A) :
  StronglySorted in_order l -> StronglySorted in_order (filter p l).
Proof.
  induction 1 as [|x l Hs IH Hall]; simpl; [constructor|].
  destruct (p x); [|exact IH].
  constructor; [exact IH|].
  rewrite Forall_forall in *. intros z Hz.
  apply filter_In in Hz. now apply Hall.
Qed.
End SortedFacts.

(** Sorting commutes with a map that leaves the keys unchanged. *)
Lemma sorted_map (A : Type) (key : A -> N) (reverse : bool) (f : A -> A)
    (l : list A) :
  (forall v, key (f v) = key v) ->
  sorted key reverse (map f l) = map f (sorted key reverse l).
Proof.
  intros Hf.
  assert (Hins : forall x s, insert key reverse (f x) (map f s)
                             = map f (insert key reverse x s)).
  { intros x s. induction s as [|y ys IH]; simpl; [reflexivity|].
    rewrite !Hf. destruct (precedes reverse (key y) (key x)); simpl;
      [now rewrite IH | reflexivity]. }
  induction l as [|x l IH]; simpl; [reflexivity|].
  now rewrite IH, Hins.
Qed.

(** ** [max] and [min] by date *)

Section BestFacts.
Context {A : Type} `{Historical A}.

Lemma date_gt_better : date_gt = better_by true.
Proof. reflexivity. Qed.

Lemma date_lt_better : date_lt = better_by false.
Proof. reflexivity. Qed.

Lemma has_date_iff (d : datetime) (v : A) :
  has_date d v = true <-> date_of v = Some d.
Proof.
  unfold has_date. destruct (date_of v) as [x|]; [|split; discriminate].
  rewrite N.eqb_eq. split; congruence.
Qed.

(** The loop of [max]/[min] over dated items returns the first item, in
    the order of the list, among those whose date is the best one. *)
Lemma best_loop_first (reverse : bool) (l : list A) (b : A) :
  Forall (fun v => dated v = true) (b :: l) ->
  exists d,
    date_of (best_loop (better_by reverse) b l) = Some d /\
    (forall w d', In w (b :: l) -> date_of w = Some d' ->
                  precedes reverse d' d = false) /\
    hd_error (filter (has_date d) (b :: l))
      = Some (best_loop (better_by reverse) b l).
Proof.
  revert b. induction l as [|v l IH]; intros b Hd.
  - inversion Hd as [|? ? Hb _]; subst. unfold dated in Hb.
    destruct (date_of b) as [db|] eqn:Eb; [|discriminate].
    exists db. simpl. repeat split.
    + exact Eb.
    + intros w d' [<-|[]] Hw. rewrite Eb in Hw; injection Hw as <-.
      unfold precedes; destruct reverse; apply N.ltb_irrefl.
    + unfold has_date. now rewrite Eb, N.eqb_refl.
  - inversion Hd as [|? ? Hb Hd']; subst.
    inversion Hd' as [|? ? Hv Hl]; subst.
    unfold dated in Hb, Hv.
    destruct (date_of b) as [db|] eqn:Eb; [|discriminate].
    destruct (date_of v) as [dv|] eqn:Ev; [|discriminate].
    assert (Hbv : better_by reverse v b = precedes reverse dv db)
      by (unfold better_by; now rewrite Ev, Eb).
    simpl best_loop. rewrite Hbv.
    destruct (precedes reverse dv db) eqn:E.
    + destruct (IH v) as (d & Hdate & Hbest & Hfirst).
      { constructor; [unfold dated; now rewrite Ev | exact Hl]. }
      exists d. split; [exact Hdate|]. split.
      * intros w d' [<-|Hw] Hw'; [|exact (Hbest w d' Hw Hw')].
        rewrite Eb in Hw'; injection Hw' as <-.
        assert (Hvd := Hbest v dv (or_introl eq_refl) Ev).
        revert E Hvd. unfold precedes; destruct reverse;
          rewrite N.ltb_lt, !N.ltb_ge; lia.
      * assert (Hvd := Hbest v dv (or_introl eq_refl) Ev).
        change (filter (has_date d) (b :: v :: l))
          with (if has_date d b then b :: filter (has_date d) (v :: l)
                else filter (has_date d) (v :: l)).
        destruct (has_date d b) eqn:Hb'; [|exact Hfirst].
        apply has_date_iff in Hb'. rewrite Eb in Hb'; injection Hb' as <-.
        exfalso. revert E Hvd. unfold precedes; destruct reverse;
          rewrite N.ltb_lt, N.ltb_ge; lia.
    + destruct (IH b) as (d & Hdate & Hbest & Hfirst).
      { constructor; [unfold dated; now rewrite Eb | exact Hl]. }
      exists d. split; [exact Hdate|]. split.
      * intros w d' [<-|[<-|Hw]] Hw'.
        -- apply (Hbest b d' (or_introl eq_refl) Hw').
        -- rewrite Ev in Hw'; injection Hw' as <-.
           assert (Hbd := Hbest b db (or_introl eq_refl) Eb).
           revert E Hbd. unfold precedes; destruct reverse;
             rewrite !N.ltb_ge; lia.
        -- apply (Hbest w d' (or_intror Hw) Hw').
      * assert (Hbd := Hbest b db (or_introl eq_refl) Eb).
        simpl in Hfirst |- *.
        destruct (has_date d b) eqn:Hb'; [exact Hfirst|].
        destruct (has_date d v) eqn:Hv'; [|exact Hfirst].
        apply has_date_iff in Hv'. rewrite Ev in Hv'; injection Hv' as <-.
        exfalso.
        assert (db <> dv) as Hne.
        { intros ->. unfold has_date in Hb'. rewrite Eb, N.eqb_refl in Hb'.
          discriminate. }
        revert E Hbd. unfold precedes; destruct reverse;
          rewrite !N.ltb_ge; lia.
Qed.

Lemma filter_has_date_dated (d : datetime) (l : list A) :
  filter (has_date d) (filter dated l) = filter (has_date d) l.
Proof.
  induction l as [|v l IH]; simpl; [reflexivity|].
  destruct (dated v) eqn:Dv; simpl; rewrite IH; [reflexivity|].
  assert (has_date d v = false) as ->; [|reflexivity].
  unfold dated, has_date in *. now destruct (date_of v).
Qed.

Lemma filter_dated_all (l : list A) :
  Forall (fun v => dated v = true) (filter dated l).
Proof.
  rewrite Forall_forall. intros v Hv. now apply filter_In in Hv.
Qed.

(** [max] over the dated items of a list. *)
Lemma py_max_dated (l : list A) :
  filter dated l <> [] ->
  exists v d,
    py_max (filter dated l) = Some v /\
    date_of v = Some d /\
    (forall w d', In w l -> date_of w = Some d' -> (d' <= d)%N) /\
    hd_error (filter (has_date d) l) = Some v.
Proof.
  intros Hne. assert (Hall := filter_dated_all l).
  destruct (filter dated l) as [|b l'] eqn:E; [congruence|].
  destruct (best_loop_first true Hall) as (d & Hdate & Hbest & Hfirst).
  exists (best_loop date_gt b l'), d. rewrite date_gt_better.
  repeat split;
    [exact Hdate | | now rewrite <- filter_has_date_dated, E].
  intros w d' Hw Hw'.
  assert (In w (b :: l')) as Hin.
  { rewrite <- E. apply filter_In. split; [exact Hw|].
    unfold dated. now rewrite Hw'. }
  specialize (Hbest w d' Hin Hw'). simpl in Hbest.
  now apply N.ltb_ge in Hbest.
Qed.

(** [min] over the dated items of a list. *)
Lemma py_min_dated (l : list A) :
  filter dated l <> [] ->
  exists v d,
    py_min (filter dated l) = Some v /\
    date_of v = Some d /\
    (forall w d', In w l -> date_of w = Some d' -> (d <= d')%N) /\
    hd_error (filter (has_date d) l) = Some v.
Proof.
  intros Hne. assert (Hall := filter_dated_all l).
  destruct (filter dated l) as [|b l'] eqn:E; [congruence|].
  destruct (best_loop_first false Hall) as (d & Hdate & Hbest & Hfirst).
  exists (best_loop date_lt b l'), d. rewrite date_lt_better.
  repeat split;
    [exact Hdate | | now rewrite <- filter_has_date_dated, E].
  intros w d' Hw Hw'.
  assert (In w (b :: l')) as Hin.
  { rewrite <- E. apply filter_In. split; [exact Hw|].
    unfold dated. now rewrite Hw'. }
  specialize (Hbest w d' Hin Hw'). simpl in Hbest.
  now apply N.ltb_ge in Hbest.
Qed.
End BestFacts.

(** ** Collections: construction order *)

Section CollectionFacts.
Context {A : Type} `{Historical A}.

Lemma truthy_list_false (B : Type) (l : list B) : truthy_list l = false <-> l = [].
Proof. destruct l; simpl; split; congruence. Qed.

Lemma truthy_list_true (B : Type) (l : list B) : truthy_list l = true <-> l <> [].
Proof. destruct l; simpl; split; congruence. Qed.

Lemma filter_all (B : Type) (p : B -> bool) (l : list B) :
  (forall x, In x l -> p x = true) -> filter p l = l.
Proof.
  induction l as [|x l IH]; intros Hp; simpl; [reflexivity|].
  rewrite (Hp x (or_introl eq_refl)), IH; [reflexivity|].
  intros y Hy. apply Hp. now right.
Qed.

Lemma filter_none (B : Type) (p : B -> bool) (l : list B) :
  (forall x, In x l -> p x = false) -> filter p l = [].
Proof.
  induction l as [|x l IH]; intros Hp; simpl; [reflexivity|].
  rewrite (Hp x (or_introl eq_refl)), IH; [reflexivity|].
  intros y Hy. apply Hp. now right.
Qed.

Lemma filter_filter (B : Type) (p q : B -> bool) (l : list B) :
  filter p (filter q l) = filter (fun x => q x && p x) l.
Proof.
  induction l as [|x l IH]; simpl; [reflexivity|].
  destruct (q x); simpl; [destruct (p x)|]; now rewrite IH.
Qed.

Lemma init_In (vs : list A) (v : A) :
  In v (values (HistoricalCollection_init vs)) <-> In v vs.
Proof. apply sorted_In. Qed.

Lemma init_ordered (vs : list A) :
  StronglySorted (in_order sort_key true) (values (HistoricalCollection_init vs)).
Proof. apply sorted_ordered. Qed.

Lemma init_stable (p : A -> bool) (vs : list A) :
  (forall a b, p a = true -> p b = true -> sort_key a = sort_key b) ->
  filter p (values (HistoricalCollection_init vs)) = filter p vs.
Proof. apply sorted_stable. Qed.

Lemma sort_key_undated (v : A) : undated v = true -> sort_key v = datetime_min.
Proof.
  unfold undated, is_none, sort_key. now destruct (date_of v).
Qed.

Lemma sort_key_has_date (d : datetime) (v : A) : has_date d v = true -> sort_key v = d.
Proof.
  intros Hv. apply has_date_iff in Hv. unfold sort_key. now rewrite Hv.
Qed.

(** The undated entries are stored in the order in which they were given. *)
Lemma init_undated_order (vs : list A) :
  filter undated (values (HistoricalCollection_init vs)) = filter undated vs.
Proof.
  apply init_stable. intros a b Ha Hb.
  now rewrite (sort_key_undated _ Ha), (sort_key_undated _ Hb).
Qed.

(** So are the entries that share one date, whatever else is asked of them. *)
Lemma init_tied_order (q : A -> bool) (d : datetime) (vs : list A) :
  filter (fun v => q v && has_date d v) (values (HistoricalCollection_init vs))
  = filter (fun v => q v && has_date d v) vs.
Proof.
  apply init_stable. intros a b Ha Hb.
  apply andb_true_iff in Ha, Hb.
  now rewrite (sort_key_has_date _ _ (proj2 Ha)), (sort_key_has_date _ _ (proj2 Hb)).
Qed.

Lemma ordered_occurs_before (R : A -> A -> Prop) (x y : A) (l : list A) :
  StronglySorted R l -> occurs_before x y l -> R x y.
Proof.
  intros Hs (l1 & l2 & l3 & ->).
  induction l1 as [|z l1 IH]; simpl in Hs.
  - inversion Hs as [|? ? _ Hall]; subst.
    rewrite Forall_forall in Hall. apply Hall.
    apply in_or_app. right. now left.
  - inversion Hs; subst. now apply IH.
Qed.

(** Dated entries are stored in non-increasing date order. *)
Lemma init_dated_descending (vs : list A) (x y : A) (dx dy : datetime) :
  occurs_before x y (values (HistoricalCollection_init vs)) ->
  date_of x = Some dx -> date_of y = Some dy -> (dy <= dx)%N.
Proof.
  intros Hb Hx Hy.
  assert (Ho := ordered_occurs_before (init_ordered vs) Hb).
  unfold in_order, precedes, sort_key in Ho. rewrite Hx, Hy in Ho.
  now apply N.ltb_ge in Ho.
Qed.

(** When no entry is dated [datetime.min], no undated entry is stored
    before a dated one. *)
Lemma init_dated_first (vs : list A) (x y : A) :
  (forall v, In v vs -> date_of v <> Some datetime_min) ->
  occurs_before x y (values (HistoricalCollection_init vs)) ->
  undated x = true -> dated y = false.
Proof.
  intros Hmin Hb Hx.
  assert (Ho := ordered_occurs_before (init_ordered vs) Hb).
  unfold in_order, precedes in Ho. rewrite (sort_key_undated _ Hx) in Ho.
  apply N.ltb_ge in Ho.
  assert (In y vs) as Hy.
  { apply -> init_In. destruct Hb as (l1 & l2 & l3 & ->).
    apply in_or_app; right; right. apply in_or_app; right; now left. }
  specialize (Hmin y Hy). unfold dated, sort_key, datetime_min in *.
  destruct (date_of y) as [dy|]; [|reflexivity].
  exfalso. apply Hmin. f_equal. lia.
Qed.

(** A stored order is left unchanged by the sort of [active]: [active]
    is the strikethrough filter over the stored values. *)
Lemma active_filter (vs : list A) :
  active (HistoricalCollection_init vs)
  = filter (fun v => negb (struck v)) (values (HistoricalCollection_init vs)).
Proof.
  unfold active. apply sorted_of_ordered, filter_ordered, init_ordered.
Qed.

(** ** Collections: [latest] and [oldest] *)

Lemma candidates_filter (allow : bool) (l : list A) :
  (if allow then l else filter (fun v => negb (struck v)) l)
  = filter (is_candidate allow) l.
Proof.
  destruct allow; [symmetry; now apply filter_all | reflexivity].
Qed.

Lemma latest_eq (c : HistoricalCollection A) (allow : bool) :
  latest c allow =
    let candidates := filter (is_candidate allow) (values c) in
    if truthy_list (filter dated candidates) then py_max (filter dated candidates)
    else hd_error (filter undated candidates).
Proof.
  unfold latest. rewrite candidates_filter. cbv zeta.
  fold (@dated A _) (@undated A _).
  destruct (truthy_list (values c)) eqn:T; simpl negb; cbv iota.
  - destruct (filter (is_candidate allow) (values c)) as [|w l']; [reflexivity|].
    change (truthy_list (w :: l')) with true. simpl negb. cbv iota.
    destruct (truthy_list (filter dated (w :: l'))); [reflexivity|].
    now destruct (filter undated (w :: l')).
  - apply truthy_list_false in T. now rewrite T.
Qed.

Lemma oldest_eq (c : HistoricalCollection A) :
  oldest c =
    if truthy_list (filter dated (values c)) then py_min (filter dated (values c))
    else last_item (filter undated (values c)).
Proof.
  unfold oldest. cbv zeta.
  fold (@dated A _) (@undated A _).
  destruct (truthy_list (values c)) eqn:T; simpl negb; cbv iota.
  - destruct (truthy_list (filter dated (values c))); [reflexivity|].
    now destruct (filter undated (values c)).
  - apply truthy_list_false in T. now rewrite T.
Qed.
End CollectionFacts.

Section CollectionClaims.
Context {A : Type} `{Historical A}.

Lemma hd_error_In (B : Type) (l : list B) (v : B) : hd_error l = Some v -> In v l.
Proof. destruct l; simpl; [discriminate|]. intros [= ->]. now left. Qed.

Lemma filter_nonempty (B : Type) (p : B -> bool) (l : list B) (x : B) :
  In x l -> p x = true -> filter p l <> [].
Proof.
  intros Hx Hp E. assert (In x (filter p l)) as Hin by now apply filter_In.
  now rewrite E in Hin.
Qed.

Lemma latest_dated (c : HistoricalCollection A) (allow : bool) :
  filter dated (filter (is_candidate allow) (values c)) <> [] ->
  exists v d,
    latest c allow = Some v /\
    date_of v = Some d /\
    (forall w d', In w (values c) -> is_candidate allow w = true ->
                  date_of w = Some d' -> (d' <= d)%N) /\
    hd_error (filter (fun w => is_candidate allow w && has_date d w) (values c))
      = Some v.
Proof.
  intros Hne. rewrite latest_eq. cbv zeta.
  destruct (py_max_dated _ Hne) as (v & d & Hmax & Hdate & Hbest & Hfirst).
  apply truthy_list_true in Hne. rewrite Hne, Hmax.
  exists v, d. repeat split; [exact Hdate | |].
  - intros w d' Hw Hc. apply Hbest. now apply filter_In.
  - now rewrite <- filter_filter.
Qed.

(** C2. Over a collection whose values are all marked strikethrough,
    [latest(allow_strikethrough=False)] returns nothing, and
    [latest(allow_strikethrough=True)] returns, when at least one value is
    dated, a value of the collection whose date is the maximum one. *)
Theorem latest_all_strikethrough (vs : list A) :
  (forall v, In v vs -> struck v = true) ->
  latest (HistoricalCollection_init vs) false = None /\
  ((exists w, In w vs /\ dated w = true) ->
   exists v d,
     latest (HistoricalCollection_init vs) true = Some v /\
     In v vs /\
     date_of v = Some d /\
     forall w d', In w vs -> date_of w = Some d' -> (d' <= d)%N).
Proof.
  intros Hall. split.
  - rewrite latest_eq. cbv zeta.
    rewrite (@filter_none _ (is_candidate false)); [reflexivity|].
    intros v Hv. apply -> init_In in Hv.
    unfold is_candidate. now rewrite (Hall v Hv).
  - intros (w & Hw & Hd).
    destruct (@latest_dated (HistoricalCollection_init vs) true)
      as (v & d & Hlatest & Hdate & Hbest & Hfirst).
    { rewrite (@filter_all _ (is_candidate true)) by reflexivity.
      apply filter_nonempty with w; [now apply <- init_In | exact Hd]. }
    exists v, d. repeat split; [exact Hlatest | | exact Hdate |].
    + apply hd_error_In, filter_In in Hfirst. now apply -> init_In.
    + intros x d' Hx. apply Hbest; [now apply <- init_In | reflexivity].
Qed.

(** C9. When the candidates of [latest] (the values that pass the
    strikethrough filter) hold values dated with the maximum date [d] of
    the candidates, in particular two or more of them, [latest] returns the
    first such value in stored order, and the stored order of these tied
    values is the order in which they were given to the constructor. *)
Theorem latest_tie_break (vs : list A) (allow : bool) (d : datetime) :
  let tied := fun v => is_candidate allow v && has_date d v in
  (forall w d', In w vs -> is_candidate allow w = true ->
                date_of w = Some d' -> (d' <= d)%N) ->
  filter tied vs <> [] ->
  latest (HistoricalCollection_init vs) allow
    = hd_error (filter tied (values (HistoricalCollection_init vs))) /\
  filter tied (values (HistoricalCollection_init vs)) = filter tied vs.
Proof.
  intros tied Hmax Hne.
  assert (Hst : filter tied (values (HistoricalCollection_init vs)) = filter tied vs)
    by apply init_tied_order.
  split; [|exact Hst].
  destruct (filter tied vs) as [|t ts] eqn:Et; [congruence|].
  assert (In t (filter tied vs)) as Ht by (rewrite Et; now left).
  apply filter_In in Ht. destruct Ht as [Ht Htied].
  apply andb_true_iff in Htied. destruct Htied as [Hc Hd].
  assert (Hd' := proj1 (has_date_iff _ _) Hd).
  destruct (@latest_dated (HistoricalCollection_init vs) allow)
    as (v & d0 & Hlatest & Hdate & Hbest & Hfirst).
  { rewrite filter_filter.
    apply filter_nonempty with t; [now apply <- init_In|].
    rewrite Hc. unfold dated. now rewrite Hd'. }
  assert (d0 = d) as ->.
  { assert (Hv := hd_error_In _ Hfirst). apply filter_In in Hv.
    destruct Hv as [Hv Hcv]. apply andb_true_iff in Hcv.
    apply N.le_antisymm.
    - apply (Hmax v d0); [now apply -> init_In | tauto | exact Hdate].
    - apply (Hbest t d); [now apply <- init_In | exact Hc | exact Hd']. }
  rewrite Hlatest. symmetry. exact Hfirst.
Qed.
End CollectionClaims.

(** ** [oldest] *)

Section OldestFacts.
Context {A : Type} `{Historical A}.
Variable f : A -> A.
Hypothesis f_date : forall v, date_of (f v) = date_of v.

Lemma filter_map_comm (p : A -> bool) (l : list A) :
  (forall v, p (f v) = p v) -> filter p (map f l) = map f (filter p l).
Proof.
  intros Hp. induction l as [|x l IH]; simpl; [reflexivity|].
  rewrite Hp. destruct (p x); simpl; now rewrite IH.
Qed.

Lemma best_loop_map (better : A -> A -> bool) (l : list A) (b : A) :
  (forall x y, better (f x) (f y) = better x y) ->
  best_loop better (f b) (map f l) = f (best_loop better b l).
Proof.
  intros Hb. revert b. induction l as [|v l IH]; intros b; simpl; [reflexivity|].
  rewrite Hb. destruct (better v b); apply IH.
Qed.

Lemma last_item_map (l : list A) : last_item (map f l) = option_map f (last_item l).
Proof.
  induction l as [|x [|y l] IH]; try reflexivity.
  exact IH.
Qed.

Lemma sort_key_map (v : A) : sort_key (f v) = sort_key v.
Proof. unfold sort_key. now rewrite f_date. Qed.

Lemma dated_map (v : A) : dated (f v) = dated v.
Proof. unfold dated. now rewrite f_date. Qed.

Lemma undated_map (v : A) : undated (f v) = undated v.
Proof. unfold undated. now rewrite f_date. Qed.

(** [oldest] commutes with any rewriting of the values that keeps their
    dates: nothing but the dates and the order decides its result. *)
Lemma oldest_map (vs : list A) :
  oldest (HistoricalCollection_init (map f vs))
  = option_map f (oldest (HistoricalCollection_init vs)).
Proof.
  rewrite !oldest_eq. unfold HistoricalCollection_init. simpl values.
  rewrite (sorted_map _ _ _ _ sort_key_map).
  rewrite (filter_map_comm _ _ dated_map), (filter_map_comm _ _ undated_map).
  destruct (filter dated (sorted sort_key true vs)) as [|b l]; simpl.
  - apply last_item_map.
  - f_equal. apply best_loop_map. intros x y. unfold date_lt.
    now rewrite !f_date.
Qed.
End OldestFacts.

Section OldestClaim.
Context {A : Type} `{Historical A}.

Lemma last_item_some (B : Type) (l : list B) : l <> [] -> exists v, last_item l = Some v.
Proof.
  induction l as [|x [|y l] IH]; intros Hne; [congruence | now exists x |].
  apply IH. discriminate.
Qed.

Lemma not_dated_undated (v : A) : dated v = false -> undated v = true.
Proof. unfold undated, is_none, dated. now intros ->. Qed.

(** C6. On a non-empty collection [oldest] looks at all the values: when
    some value is dated it returns a value whose date is the minimum of
    all the dates, otherwise the last value in stored order, which is then
    the order of the original list.  The strikethrough flag plays no
    part: rewriting the values in any way that keeps their dates (marking
    or unmarking them as strikethrough, say) rewrites the result alike. *)
Theorem oldest_considers_all (vs : list A) :
  vs <> [] ->
  (filter dated vs <> [] ->
   exists v d,
     oldest (HistoricalCollection_init vs) = Some v /\
     In v vs /\
     date_of v = Some d /\
     forall w d', In w vs -> date_of w = Some d' -> (d <= d')%N) /\
  (filter dated vs = [] ->
   exists v,
     oldest (HistoricalCollection_init vs) = Some v /\
     last_item (filter undated (values (HistoricalCollection_init vs))) = Some v /\
     values (HistoricalCollection_init vs) = vs /\
     last_item vs = Some v) /\
  (forall f : A -> A,
     (forall v, date_of (f v) = date_of v) ->
     oldest (HistoricalCollection_init (map f vs))
     = option_map f (oldest (HistoricalCollection_init vs))).
Proof.
  intros Hne. split; [|split].
  - intros Hd. rewrite oldest_eq.
    assert (Hd' : filter dated (values (HistoricalCollection_init vs)) <> []).
    { destruct (filter dated vs) as [|w l] eqn:E; [congruence|].
      assert (In w (filter dated vs)) as Hw by (rewrite E; now left).
      apply filter_In in Hw.
      apply filter_nonempty with w; [now apply <- init_In | tauto]. }
    destruct (py_min_dated _ Hd') as (v & d & Hmin & Hdate & Hbest & Hfirst).
    apply truthy_list_true in Hd'. rewrite Hd', Hmin.
    exists v, d. repeat split; [| exact Hdate |].
    + apply hd_error_In, filter_In in Hfirst. now apply -> init_In.
    + intros w d' Hw. apply Hbest. now apply <- init_In.
  - intros Hd.
    assert (Hall : forall v, In v vs -> undated v = true).
    { intros v Hv. apply not_dated_undated.
      destruct (dated v) eqn:E; [|reflexivity].
      exfalso. now apply (filter_nonempty dated vs v Hv E). }
    assert (Hstored : values (HistoricalCollection_init vs) = vs).
    { rewrite <- (filter_all undated vs Hall) at 2.
      rewrite <- init_undated_order. symmetry. apply filter_all.
      intros v Hv. apply Hall. now apply -> init_In. }
    destruct (last_item_some Hne) as (v & Hv).
    exists v. rewrite oldest_eq, Hstored, Hd, (filter_all undated vs Hall).
    simpl. auto.
  - intros f Hf. now apply oldest_map.
Qed.
End OldestClaim.

(** ** Collections on concrete histories *)

(** C1 (the code departs from the claim).  An undated value given before
    a value dated [datetime.min] stays before it: both have the sort key
    [datetime.min] and the sort is stable, so a dated entry is stored
    after an undated one. *)
Theorem init_undated_before_min_dated :
  values (HistoricalCollection_init [undated_a; min_dated_b])
    = [undated_a; min_dated_b] /\
  undated undated_a = true /\ dated min_dated_b = true /\
  occurs_before undated_a min_dated_b
    (values (HistoricalCollection_init [undated_a; min_dated_b])).
Proof.
  repeat split. now exists [], [], [].
Qed.

(** X3. What does hold of the stored order of every collection: it is a
    rearrangement of the given list, dated entries occur in non-increasing
    date order, undated entries keep their original order, and an undated
    entry is stored before a dated one only if some entry is dated
    [datetime.min]. *)
Lemma init_order (A : Type) `{Historical A} (vs : list A) :
  let stored := values (HistoricalCollection_init vs) in
  Permutation stored vs /\
  (forall x y dx dy, occurs_before x y stored ->
     date_of x = Some dx -> date_of y = Some dy -> (dy <= dx)%N) /\
  filter undated stored = filter undated vs /\
  ((forall v, In v vs -> date_of v <> Some datetime_min) ->
   forall x y, occurs_before x y stored -> undated x = true -> dated y = false).
Proof.
  cbv zeta. split; [apply sorted_perm|]. split; [|split].
  - intros x y dx dy. apply init_dated_descending.
  - apply init_undated_order.
  - intros Hmin x y. now apply init_dated_first.
Qed.

(** X26. [get_hashes] maps [hash] over the stored values that pass the
    strikethrough filter, or over all of them, in stored order. *)
Lemma get_hashes_eq (vs : list InviteValue) :
  get_hashes (HistoricalCollection_init vs) false
    = map hash (filter (fun v => negb (struck v))
                  (values (HistoricalCollection_init vs))) /\
  get_hashes (HistoricalCollection_init vs) true
    = map hash (values (HistoricalCollection_init vs)).
Proof.
  unfold get_hashes. now rewrite active_filter.
Qed.

(** C10 (the code departs from the claim).  With an undated invite given
    before an invite dated [datetime.min], neither of them strikethrough,
    [get_hashes()] lists the hash of the undated invite first: the order of
    [active] is the stored order, in which undated is not last here. *)
Theorem get_hashes_undated_before_min_dated :
  get_hashes (HistoricalCollection_init [invite_aaa; invite_bbb]) false
    = ["aaa"; "bbb"] /\
  date_of invite_aaa = None /\ date_of invite_bbb = Some datetime_min.
Proof.
  repeat split.
Qed.

Lemma latest_all_strikethrough_witness :
  (forall v, In v superseded_history -> struck v = true) /\
  latest (HistoricalCollection_init superseded_history) false = None /\
  ((exists w, In w superseded_history /\ dated w = true) ->
   exists v d,
     latest (HistoricalCollection_init superseded_history) true = Some v /\
     In v superseded_history /\
     date_of v = Some d /\
     forall w d', In w superseded_history -> date_of w = Some d' -> (d' <= d)%N).
Proof.
  assert (Hall : forall v, In v superseded_history -> struck v = true).
  { intros v Hv. simpl in Hv.
    repeat (destruct Hv as [<-|Hv]; [reflexivity|]). contradiction. }
  split; [exact Hall|].
  exact (@latest_all_strikethrough HistoricalValue _ superseded_history Hall).
Defined.

Lemma latest_tie_break_witness :
  let tied := fun v : HistoricalValue => is_candidate false v && has_date 20%N v in
  latest (HistoricalCollection_init tied_history) false
    = hd_error (filter tied (values (HistoricalCollection_init tied_history))) /\
  filter tied (values (HistoricalCollection_init tied_history))
    = filter tied tied_history.
Proof.
  apply (@latest_tie_break HistoricalValue _ tied_history false 20%N).
  - intros w d' Hw _ Hd. simpl in Hw.
    repeat (destruct Hw as [<-|Hw]; [vm_compute in Hd; try discriminate;
                                     injection Hd as <-; lia|]).
    contradiction.
  - vm_compute. discriminate.
Defined.

Lemma oldest_considers_all_witness :
  tied_history <> [] /\
  (exists v d,
     oldest (HistoricalCollection_init tied_history) = Some v /\
     In v tied_history /\
     date_of v = Some d /\
     forall w d', In w tied_history -> date_of w = Some d' -> (d <= d')%N) /\
  oldest (HistoricalCollection_init (map strike_out tied_history))
  = option_map strike_out (oldest (HistoricalCollection_init tied_history)).
Proof.
  assert (Hne : tied_history <> []) by discriminate.
  destruct (@oldest_considers_all HistoricalValue _ tied_history Hne)
    as (Hdated & _ & Hmap).
  split; [exact Hne|]. split.
  - apply Hdated. discriminate.
  - apply Hmap. reflexivity.
Defined.

(** ** Strings and regular expressions *)

Lemma startswith_all_chars (q : ascii -> bool) (p s : string) :
  startswith s p = true -> all_chars q s = true -> all_chars q p = true.
Proof.
  revert s. induction p as [|a p IH]; intros s Hp Hs; [reflexivity|].
  destruct s as [|b s]; [discriminate|]. simpl in Hp, Hs |- *.
  apply andb_true_iff in Hp. destruct Hp as [Hab Hp].
  apply Ascii.eqb_eq in Hab. subst b.
  apply andb_true_iff in Hs. destruct Hs as [Hb Hs].
  rewrite Hb. simpl. now apply IH with s.
Qed.

(** A string made of characters of a class does not contain a string
    that has a character outside the class. *)
Lemma contains_foreign (q : ascii -> bool) (s sub : string) :
  all_chars q s = true -> all_chars q sub = false -> contains s sub = false.
Proof.
  intros Hs Hsub. induction s as [|c s IH].
  - simpl. destruct sub; [discriminate | reflexivity].
  - simpl in Hs. apply andb_true_iff in Hs. destruct Hs as [Hc Hs].
    cbn [contains]. rewrite (IH Hs), orb_false_r.
    destruct (startswith (String c s) sub) eqn:E; [|reflexivity].
    rewrite (startswith_all_chars q _ _ E) in Hsub; [discriminate|].
    simpl. now rewrite Hc.
Qed.

Lemma contains_startswith (s sub : string) :
  contains s sub = false -> startswith s sub = false.
Proof.
  destruct s; cbn [contains]; intros Hc; apply orb_false_iff in Hc; tauto.
Qed.

(** [replace] leaves a string without occurrence of [old] unchanged. *)
Lemma replace_from_absent (old new s : string) :
  contains s old = false -> replace_from old new 0 s = s.
Proof.
  induction s as [|c s IH]; [reflexivity|].
  intros Hc. cbn [contains] in Hc. apply orb_false_iff in Hc.
  destruct Hc as [Hp Hc]. cbn [replace_from]. rewrite Hp. now rewrite IH.
Qed.

Lemma dollar_chars (q : ascii -> bool) (s : string) :
  dollar s = true -> all_chars (fun c => q c || Ascii.eqb c newline) s = true.
Proof.
  destruct s as [|c [|d s]]; simpl; try discriminate; [reflexivity|].
  intros ->. now rewrite orb_true_r.
Qed.

(** What a match of [^[cls]{lo,hi}$] tells about the string. *)
Lemma match_repeat_chars (cls : ascii -> bool) (s : string) (lo : nat) (hi : option nat) :
  match_repeat cls lo hi s = true ->
  all_chars (fun c => cls c || Ascii.eqb c newline) s = true.
Proof.
  revert lo hi. induction s as [|c s IH]; intros lo hi; [reflexivity|].
  cbn [match_repeat]. intros Hm. apply orb_true_iff in Hm.
  destruct Hm as [Hm|Hm].
  - apply andb_true_iff in Hm. now apply dollar_chars.
  - apply andb_true_iff in Hm. destruct Hm as [Hc Hm].
    cbn [all_chars]. rewrite Hc. simpl.
    destruct hi as [[|h]|]; [discriminate | |]; eapply IH; exact Hm.
Qed.

Lemma match_repeat_first (cls : ascii -> bool) (s : string) (lo : nat) (hi : option nat) :
  match_repeat cls (S lo) hi s = true ->
  exists c s', s = String c s' /\ cls c = true.
Proof.
  destruct s as [|c s]; cbn [match_repeat]; simpl; [discriminate|].
  intros Hm. apply andb_true_iff in Hm. now exists c, s.
Qed.

(** A string of [lo] to [hi] characters of the class matches. *)
Lemma match_repeat_all (cls : ascii -> bool) (s : string) (lo hi : nat) :
  all_chars cls s = true ->
  (lo <= String.length s)%nat -> (String.length s <= hi)%nat ->
  match_repeat cls lo (Some hi) s = true.
Proof.
  revert lo hi. induction s as [|c s IH]; intros lo hi Hs Hlo Hhi.
  - simpl in Hlo. assert (lo = 0)%nat as -> by lia. reflexivity.
  - cbn [match_repeat]. apply orb_true_iff. right.
    simpl in Hs, Hlo, Hhi. apply andb_true_iff in Hs. destruct Hs as [Hc Hs].
    rewrite Hc. simpl. destruct hi as [|h]; [lia|].
    apply IH; [exact Hs | lia | lia].
Qed.

Lemma startswith_literal (p s : string) : startswith (p ++ s) p = true.
Proof.
  induction p as [|a p IH]; simpl; [reflexivity|].
  now rewrite Ascii.eqb_refl.
Qed.

Lemma replace_from_skip (old new s : string) (k : nat) (p : string) :
  String.length p = k -> replace_from old new k (p ++ s) = replace_from old new 0 s.
Proof.
  revert k. induction p as [|a p IH]; intros k Hk; simpl in Hk; subst k.
  - reflexivity.
  - simpl. now apply IH.
Qed.

(** Removing [old] from [old ++ s] when [s] has no occurrence of [old]:
    the leading occurrence goes and [s] stays. *)
Lemma replace_leading (old_head : ascii) (old_tail s : string) :
  contains s (String old_head old_tail) = false ->
  replace (String old_head old_tail ++ s) (String old_head old_tail) "" = s.
Proof.
  intros Hc. unfold replace.
  assert (Hp := startswith_literal (String old_head old_tail) s).
  change (String old_head old_tail ++ s) with (String old_head (old_tail ++ s)) in *.
  cbn [replace_from]. rewrite Hp.
  cbn [String.length]. rewrite Nat.sub_1_r. cbn [Nat.pred].
  rewrite replace_from_skip by reflexivity.
  now apply replace_from_absent.
Qed.

(** ** Handle and invite values *)

Section ValueClaims.
Context `{PyRepr}.

Lemma first_char_not (cls : ascii -> bool) (m : ascii) (c : ascii) (s : string) :
  cls c = true -> cls m = false -> startswith (String c s) (String m "") = false.
Proof.
  intros Hc Hm. simpl. destruct (Ascii.eqb m c) eqn:E; [|reflexivity].
  apply Ascii.eqb_eq in E. congruence.
Qed.

(** Whatever the input, a handle value that was constructed stores a
    payload that matches the handle pattern and does not start with the
    marker. *)
Lemma UsernameValue_stored (v : string) (d : option datetime)
    (t : option string) (s : bool) (u : UsernameValue) :
  UsernameValue_new v d t s = Ok u ->
  re_match_username (value u) = true /\ startswith (value u) "@" = false.
Proof.
  unfold UsernameValue_new.
  generalize (if startswith v "@" then drop_first v else v). intros payload.
  destruct (re_match_username payload) eqn:E; cbn [negb]; [|discriminate].
  intros [= <-]. cbn [value username_base]. split; [exact E|].
  destruct (match_repeat_first _ _ _ _ E) as (c & s' & -> & Hc).
  now apply first_char_not with is_word_char.
Qed.

(** C5. For a name of 5 to 32 characters among letters, digits and the
    underscore, constructing a handle value from ["@" ++ name] succeeds,
    its [with_at] display is ["@" ++ name] again, and the stored payload
    is [name], without the marker. *)
Theorem UsernameValue_roundtrip (name : string) (d : option datetime)
    (t : option string) (s : bool) :
  all_chars is_word_char name = true ->
  (5 <= String.length name)%nat -> (String.length name <= 32)%nat ->
  exists u,
    UsernameValue_new ("@" ++ name) d t s = Ok u /\
    with_at u = "@" ++ name /\
    value u = name /\
    startswith (value u) "@" = false.
Proof.
  intros Hchars Hlo Hhi.
  assert (Hm : re_match_username name = true) by now apply match_repeat_all.
  assert (Hnew : UsernameValue_new ("@" ++ name) d t s
                 = Ok (mkUsernameValue (mkHistoricalValue name d t s))).
  { unfold UsernameValue_new. simpl. now rewrite Hm. }
  eexists. split; [exact Hnew|]. repeat split.
  now apply (UsernameValue_stored _ _ _ _ Hnew).
Qed.

(** A string accepted by the hash pattern is made of hash characters,
    possibly followed by one newline, and starts with a hash character. *)
Lemma hash_contains_no (h sub : string) :
  re_match_hash h = true ->
  all_chars (fun c => is_hash_char c || Ascii.eqb c newline) sub = false ->
  contains h sub = false.
Proof.
  intros Hm Hsub. eapply contains_foreign; [|exact Hsub].
  exact (match_repeat_chars _ _ _ _ Hm).
Qed.

Lemma hash_not_plus (h : string) : re_match_hash h = true -> startswith h "+" = false.
Proof.
  intros Hm. destruct (match_repeat_first _ _ _ _ Hm) as (c & s' & -> & Hc).
  now apply first_char_not with is_hash_char.
Qed.


(** X25. The fourth input shape, a full URL with the [http] scheme, gives the
    same hash but keeps its url as it was given. *)
Lemma InviteValue_http (h : string) (d : option datetime)
    (t : option string) (s : bool) :
  re_match_hash h = true ->
  InviteValue_new ("http://t.me/+" ++ h) d t s
  = Ok (mkInviteValue (mkHistoricalValue ("http://t.me/+" ++ h) d t s) h).
Proof.
  intros Hm.
  assert (Hp : contains h "http://t.me/+" = false)
    by (now apply hash_contains_no).
  unfold InviteValue_new.
  assert (startswith ("http://t.me/+" ++ h) "https://t.me/+" = false) as ->
    by reflexivity.
  rewrite startswith_literal, (replace_leading _ _ _ Hp). now rewrite Hm.
Qed.
End ValueClaims.

(** ** Stripping and [int] *)

Lemma lstrip_by_head (p : ascii -> bool) (s : string) (c : ascii) (r : string) :
  lstrip_by p s = String c r -> p c = false.
Proof.
  induction s as [|a s IH]; simpl; [discriminate|].
  destruct (p a) eqn:Pa; [exact IH|]. now intros [= <- _].
Qed.

Lemma rstrip_by_head (p : ascii -> bool) (c : ascii) (s : string) :
  p c = false -> exists r, rstrip_by p (String c s) = String c r.
Proof.
  intros Pc. simpl. destruct (rstrip_by p s) as [|d r].
  - rewrite Pc. now exists "".
  - now exists (String d r).
Qed.

Lemma rstrip_by_idem (p : ascii -> bool) (s : string) :
  rstrip_by p (rstrip_by p s) = rstrip_by p s.
Proof.
  induction s as [|c s IH]; [reflexivity|].
  simpl. destruct (rstrip_by p s) as [|d r] eqn:E.
  - destruct (p c) eqn:Pc; simpl; [reflexivity | now rewrite Pc].
  - change (rstrip_by p (String c (String d r)))
      with (match rstrip_by p (String d r) with
            | EmptyString => if p c then EmptyString else String c EmptyString
            | String _ _ as r0 => String c r0
            end).
    now rewrite IH.
Qed.

(** Stripping a stripped text changes nothing. *)
Lemma strip_idem (s : string) : strip (strip s) = strip s.
Proof.
  unfold strip.
  assert (Hl : lstrip_by is_space (rstrip_by is_space (lstrip_by is_space s))
               = rstrip_by is_space (lstrip_by is_space s)).
  { destruct (lstrip_by is_space s) as [|c y] eqn:E; [reflexivity|].
    assert (Pc := lstrip_by_head _ _ E).
    destruct (rstrip_by_head is_space c y Pc) as (r & ->).
    simpl. now rewrite Pc. }
  rewrite Hl. apply rstrip_by_idem.
Qed.

(** A character of a class is none of the characters outside it. *)
Lemma class_excludes (cls : ascii -> bool) (c m : ascii) :
  cls c = true -> cls m = false -> Ascii.eqb c m = false.
Proof.
  intros Hc Hm. destruct (Ascii.eqb c m) eqn:E; [|reflexivity].
  apply Ascii.eqb_eq in E. congruence.
Qed.

Lemma append_empty_r (s : string) : s ++ "" = s.
Proof. induction s as [|c s IH]; simpl; [reflexivity | now rewrite IH]. Qed.

Lemma is_digits_inv (s : string) :
  is_digits s = true -> all_chars is_digit s = true /\ s <> "".
Proof.
  unfold is_digits. intros Hs. apply andb_true_iff in Hs. destruct Hs as [Ha Hn].
  split; [exact Ha|]. intros ->. discriminate.
Qed.

Lemma is_digits_intro (s : string) :
  all_chars is_digit s = true -> s <> "" -> is_digits s = true.
Proof.
  intros Ha Hne. unfold is_digits. rewrite Ha. now destruct s.
Qed.

Lemma parse_digits_digits (s : string) (acc : Z) (after_digit : bool) :
  all_chars is_digit s = true ->
  s <> "" \/ after_digit = true ->
  parse_digits acc after_digit s = Some (decimal_from acc s).
Proof.
  revert acc after_digit. induction s as [|c s IH]; intros acc after Hs Hne.
  - destruct Hne as [Hne| ->]; [congruence | reflexivity].
  - simpl in Hs. apply andb_true_iff in Hs. destruct Hs as [Hc Hs].
    simpl. rewrite Hc. apply IH; [exact Hs | now right].
Qed.

Lemma parse_digits_app (d tail : string) (acc : Z) (after_digit : bool) :
  all_chars is_digit d = true -> d <> "" ->
  parse_digits acc after_digit (d ++ tail)
  = parse_digits (decimal_from acc d) true tail.
Proof.
  revert acc after_digit. induction d as [|c d IH]; intros acc after Hd Hne;
    [congruence|].
  simpl in Hd. apply andb_true_iff in Hd. destruct Hd as [Hc Hd].
  simpl. rewrite Hc. destruct d as [|c' d']; [reflexivity|].
  apply IH; [exact Hd | discriminate].
Qed.

(** The parser accepts the digit groups... *)
Lemma parse_digits_groups (s : string) :
  digit_groups s -> forall acc, exists n, parse_digits acc false s = Some n.
Proof.
  induction 1 as [d Hd | d rest Hd Hrest IH]; intros acc;
    apply is_digits_inv in Hd; destruct Hd as [Ha Hne].
  - eexists. apply parse_digits_digits; auto.
  - rewrite parse_digits_app by assumption.
    change (parse_digits (decimal_from acc d) true (String "_" rest))
      with (parse_digits (decimal_from acc d) false rest).
    apply IH.
Qed.

(** ... and nothing else: what it accepts is a possibly empty run of
    digits followed by nothing or by an underscore and digit groups. *)
Lemma parse_digits_shape (s : string) (acc : Z) (after_digit : bool) (n : Z) :
  parse_digits acc after_digit s = Some n ->
  exists d tail,
    s = d ++ tail /\
    all_chars is_digit d = true /\
    (after_digit = false -> d <> "") /\
    (tail = "" \/ exists g, tail = String "_" g /\ digit_groups g).
Proof.
  revert acc after_digit. induction s as [|c s IH]; intros acc after Hp.
  - simpl in Hp. destruct after; [|discriminate].
    exists "", "". repeat split; [discriminate | now left].
  - simpl in Hp. destruct (is_digit c) eqn:Dc.
    + destruct (IH _ _ Hp) as (d & tail & -> & Hd & _ & Ht).
      exists (String c d), tail.
      repeat split; [simpl; now rewrite Dc | discriminate | exact Ht].
    + destruct (Ascii.eqb c "_") eqn:Uc; [|discriminate].
      destruct after; [|discriminate]. simpl in Hp.
      apply Ascii.eqb_eq in Uc. subst c.
      destruct (IH _ _ Hp) as (d & tail & -> & Hd & Hne & Ht).
      exists "", (String "_" (d ++ tail)).
      repeat split; [discriminate|].
      right. exists (d ++ tail). split; [reflexivity|].
      assert (Hdig : is_digits d = true) by (apply is_digits_intro; auto).
      destruct Ht as [-> | (g & -> & Hg)].
      * rewrite append_empty_r. now apply groups_last.
      * now apply groups_more.
Qed.

Lemma parse_digits_groups_inv (s : string) (acc n : Z) :
  parse_digits acc false s = Some n -> digit_groups s.
Proof.
  intros Hp. destruct (parse_digits_shape _ _ _ Hp) as (d & tail & -> & Hd & Hne & Ht).
  assert (Hdig : is_digits d = true) by (apply is_digits_intro; auto).
  destruct Ht as [-> | (g & -> & Hg)].
  - rewrite append_empty_r. now apply groups_last.
  - now apply groups_more.
Qed.

Lemma parse_digits_value (s : string) (acc : Z) (after_digit : bool) (n : Z) :
  parse_digits acc after_digit s = Some n ->
  n = decimal_from acc (remove_underscores s).
Proof.
  revert acc after_digit. induction s as [|c s IH]; intros acc after; simpl.
  - destruct after; [now intros [= <-] | discriminate].
  - destruct (is_digit c) eqn:Dc.
    + rewrite (class_excludes is_digit c "_" Dc eq_refl). simpl. apply IH.
    + destruct (Ascii.eqb c "_"); [|discriminate].
      destruct after; [|discriminate]. simpl. apply IH.
Qed.

Lemma digit_groups_first (s : string) :
  digit_groups s -> exists c s', s = String c s' /\ is_digit c = true.
Proof.
  intros Hg.
  assert (Hd : exists d rest, s = d ++ rest /\ is_digits d = true).
  { destruct Hg as [d Hd | d rest Hd _].
    - exists d, "". now rewrite append_empty_r.
    - now exists d, (String "_" rest). }
  destruct Hd as (d & rest & -> & Hd). apply is_digits_inv in Hd.
  destruct Hd as [Ha Hne]. destruct d as [|c d]; [congruence|].
  simpl in Ha. apply andb_true_iff in Ha. exists c, (d ++ rest). tauto.
Qed.

(** The literals are what [parse_literal] accepts, and it gives them
    their value. *)
Lemma parse_literal_sound (s : string) (n : Z) :
  parse_literal s = Some n -> int_literal s /\ n = literal_value s.
Proof.
  unfold parse_literal, literal_value. destruct s as [|c rest]; [discriminate|].
  destruct (Ascii.eqb c "-") eqn:Em.
  - apply Ascii.eqb_eq in Em. subst c.
    destruct (parse_digits 0 false rest) as [m|] eqn:E; [|discriminate].
    intros [= <-]. split.
    + apply literal_minus. now apply parse_digits_groups_inv with 0%Z m.
    + now rewrite (parse_digits_value _ _ _ E).
  - destruct (Ascii.eqb c "+") eqn:Ep.
    + apply Ascii.eqb_eq in Ep. subst c. intros E. split.
      * apply literal_plus. now apply parse_digits_groups_inv with 0%Z n.
      * exact (parse_digits_value _ _ _ E).
    + intros E. split.
      * apply literal_unsigned. now apply parse_digits_groups_inv with 0%Z n.
      * exact (parse_digits_value _ _ _ E).
Qed.

Lemma parse_literal_complete (s : string) :
  int_literal s -> exists n, parse_literal s = Some n.
Proof.
  intros [g Hg | g Hg | g Hg].
  - destruct (digit_groups_first Hg) as (c & s' & -> & Hc).
    unfold parse_literal.
    rewrite (class_excludes is_digit c "-" Hc eq_refl).
    rewrite (class_excludes is_digit c "+" Hc eq_refl).
    now apply parse_digits_groups.
  - now apply parse_digits_groups.
  - destruct (parse_digits_groups Hg 0%Z) as (n & Hn).
    exists (- n)%Z. unfold parse_literal. simpl Ascii.eqb. cbv iota.
    now rewrite Hn.
Qed.

Lemma parse_literal_value (s : string) :
  int_literal s -> parse_literal s = Some (literal_value s).
Proof.
  intros Hs. destruct (parse_literal_complete Hs) as (n & Hn).
  now rewrite Hn, (proj2 (parse_literal_sound _ Hn)).
Qed.

Lemma parse_literal_none (s : string) :
  ~ int_literal s -> parse_literal s = None.
Proof.
  intros Hs. destruct (parse_literal s) as [n|] eqn:E; [|reflexivity].
  exfalso. apply Hs. exact (proj1 (parse_literal_sound _ E)).
Qed.

(** A run of digits is a literal, of the value the digits denote. *)
Lemma digits_literal (s : string) :
  is_digits s = true -> int_literal s /\ literal_value s = decimal s.
Proof.
  intros Hs. assert (Hlit : int_literal s) by now apply literal_unsigned, groups_last.
  split; [exact Hlit|].
  assert (Hv := parse_literal_value Hlit).
  assert (Hp : parse_literal s = Some (decimal s)).
  { apply is_digits_inv in Hs. destruct Hs as [Ha Hne].
    destruct s as [|c s']; [congruence|].
    assert (Hc : is_digit c = true).
    { simpl in Ha. apply andb_true_iff in Ha. tauto. }
    unfold parse_literal.
    rewrite (class_excludes is_digit c "-" Hc eq_refl).
    rewrite (class_excludes is_digit c "+" Hc eq_refl).
    apply parse_digits_digits; [exact Ha | now left]. }
  rewrite Hv in Hp. now injection Hp.
Qed.

(** A text without any digit is no literal. *)
Lemma literal_has_digit (s : string) : int_literal s -> any_char is_digit s = true.
Proof.
  intros [g Hg | g Hg | g Hg];
    destruct (digit_groups_first Hg) as (c & s' & -> & Hc);
    simpl; rewrite Hc; now rewrite ?orb_true_r.
Qed.

(** What [int] ignores, [str.strip] removes. *)
Lemma int_space_is_space (c : ascii) : is_int_space c = true -> is_space c = true.
Proof.
  destruct c as [b0 b1 b2 b3 b4 b5 b6 b7].
  destruct b0, b1, b2, b3, b4, b5, b6, b7; vm_compute; intros Hc;
    first [reflexivity | discriminate Hc].
Qed.

Lemma rstrip_by_sub (p q : ascii -> bool) (s : string) :
  (forall c, q c = true -> p c = true) ->
  rstrip_by q (rstrip_by p s) = rstrip_by p s.
Proof.
  intros Hqp. induction s as [|c s IH]; [reflexivity|].
  simpl. destruct (rstrip_by p s) as [|d r] eqn:E.
  - destruct (p c) eqn:Pc; simpl; [reflexivity|].
    destruct (q c) eqn:Qc; [|reflexivity].
    rewrite (Hqp c Qc) in Pc. discriminate.
  - change (rstrip_by q (String c (String d r)))
      with (match rstrip_by q (String d r) with
            | EmptyString => if q c then EmptyString else String c EmptyString
            | String _ _ as r0 => String c r0
            end).
    now rewrite IH.
Qed.

(** On a stripped text, the stripping of [int] changes nothing. *)
Lemma int_strip_stripped (s : string) :
  rstrip_by is_int_space (lstrip_by is_int_space (strip s)) = strip s.
Proof.
  unfold strip.
  assert (Hl : lstrip_by is_int_space (rstrip_by is_space (lstrip_by is_space s))
               = rstrip_by is_space (lstrip_by is_space s)).
  { destruct (lstrip_by is_space s) as [|c y] eqn:E; [reflexivity|].
    assert (Pc := lstrip_by_head _ _ E).
    destruct (rstrip_by_head is_space c y Pc) as (r & ->).
    simpl. destruct (is_int_space c) eqn:Qc; [|reflexivity].
    rewrite (int_space_is_space _ Qc) in Pc. discriminate. }
  rewrite Hl. apply rstrip_by_sub, int_space_is_space.
Qed.

Lemma count_digits_all (s : string) :
  all_chars is_digit s = true -> count_digits s = String.length s.
Proof.
  induction s as [|c s IH]; simpl; [reflexivity|].
  intros Hs. apply andb_true_iff in Hs. destruct Hs as [-> Hs].
  now rewrite IH.
Qed.

Lemma over_limit (k : nat) :
  ((0 <? int_max_str_digits)%nat && (int_max_str_digits <? k)%nat = true)
  <-> (int_max_str_digits < k)%nat.
Proof.
  assert ((0 <? int_max_str_digits)%nat = true) as -> by reflexivity.
  cbn [andb]. apply Nat.ltb_lt.
Qed.

(** [int] raises nothing but [ValueError]. *)
Lemma py_int_raises (s : string) (e : exn) :
  py_int s = Raise e -> exn_cls e = ValueError.
Proof.
  unfold py_int. cbv zeta.
  destruct (parse_literal _); [destruct (_ && _)|];
    intros Heq; try discriminate; injection Heq as Heq; now rewrite <- Heq.
Qed.

(** [int] on a stripped text. *)
Lemma py_int_stripped (s : string) (n : Z) :
  py_int (strip s) = Ok n <->
  parse_literal (strip s) = Some n /\
  (count_digits (strip s) <= int_max_str_digits)%nat.
Proof.
  unfold py_int. cbv zeta. rewrite int_strip_stripped.
  destruct (parse_literal (strip s)) as [m|].
  - destruct ((0 <? int_max_str_digits)%nat
              && (int_max_str_digits <? count_digits (strip s))%nat) eqn:E.
    + apply over_limit in E. split; [discriminate|]. intros [_ Hle]. lia.
    + assert (~ (int_max_str_digits < count_digits (strip s))%nat) as Hn.
      { intros Hlt. apply over_limit in Hlt. congruence. }
      split.
      * intros [= ->]. split; [reflexivity | lia].
      * intros [[= ->] _]. reflexivity.
  - split; [discriminate|]. intros [Hp _]. discriminate.
Qed.

(** ** Entity projection *)

Section EntityClaims.
Context `{PyRepr}.

Lemma get_id_present (self : TelegramEntity) (fv : mdml.FieldValue) :
  mdml.get_value (doc self) "id" = Some fv ->
  get_id self =
    match py_int (raw_text fv) with
    | Ok n => Ok (Some n)
    | Raise e =>
        if issubclass (exn_cls e) ValueError then
          Raise (mkExn InvalidFieldError ("Invalid ID format: " ++ repr (mdml.value fv)))
        else Raise e
    end.
Proof.
  intros Hv. unfold get_id. rewrite Hv. fold (raw_text fv).
  now destruct (py_int (raw_text fv)).
Qed.

Lemma get_id_raise (self : TelegramEntity) (fv : mdml.FieldValue) :
  mdml.get_value (doc self) "id" = Some fv ->
  (forall n, py_int (raw_text fv) <> Ok n) ->
  get_id self
  = Raise (mkExn InvalidFieldError ("Invalid ID format: " ++ repr (mdml.value fv))).
Proof.
  intros Hv Hno. rewrite (get_id_present _ Hv).
  destruct (py_int (raw_text fv)) as [n|e] eqn:E; [now destruct (Hno n)|].
  now rewrite (py_int_raises _ E).
Qed.

(** C4, as amended.  The texts are texts of characters with code points
    below 256, and the limit of [int] on the number of digits is the
    default one, 4300.  When the [id] field is absent [get_id] returns
    nothing and raises nothing.  When it is present: a stripped text made
    of digits, at most 4300 of them, gives the integer the digits denote;
    more generally a stripped text that is an integer literal (an optional
    sign, then digits, where single underscores may separate digits) of at
    most 4300 digits gives the integer it denotes, a text such as [-5]
    being parsed and not rejected; any other stripped text, that is, a text
    that is no integer literal (and so any text without a digit) or that
    has more than 4300 digits, makes [get_id] raise [InvalidFieldError]. *)
Theorem get_id_resolution (self : TelegramEntity) :
  (mdml.get_value (doc self) "id" = None -> get_id self = Ok None) /\
  (forall fv, mdml.get_value (doc self) "id" = Some fv ->
     (is_digits (raw_text fv) = true ->
      (String.length (raw_text fv) <= int_max_str_digits)%nat ->
      get_id self = Ok (Some (decimal (raw_text fv)))) /\
     (int_literal (raw_text fv) ->
      (count_digits (raw_text fv) <= int_max_str_digits)%nat ->
      get_id self = Ok (Some (literal_value (raw_text fv)))) /\
     (~ int_literal (raw_text fv)
      \/ (int_max_str_digits < count_digits (raw_text fv))%nat ->
      get_id self
      = Raise (mkExn InvalidFieldError
                 ("Invalid ID format: " ++ repr (mdml.value fv)))) /\
     (any_char is_digit (raw_text fv) = false -> ~ int_literal (raw_text fv))).
Proof.
  split.
  - intros Hv. unfold get_id. now rewrite Hv.
  - intros fv Hv.
    assert (Hint : forall n, py_int (raw_text fv) = Ok n <->
              parse_literal (raw_text fv) = Some n /\
              (count_digits (raw_text fv) <= int_max_str_digits)%nat)
      by (intros n; unfold raw_text; apply py_int_stripped).
    assert (Hlit : int_literal (raw_text fv) ->
              (count_digits (raw_text fv) <= int_max_str_digits)%nat ->
              get_id self = Ok (Some (literal_value (raw_text fv)))).
    { intros Hl Hle. rewrite (get_id_present _ Hv).
      now rewrite (proj2 (Hint _) (conj (parse_literal_value Hl) Hle)). }
    repeat split.
    + intros Hd Hle. destruct (digits_literal _ Hd) as [Hl <-].
      apply Hlit; [exact Hl|].
      rewrite count_digits_all; [exact Hle|].
      exact (proj1 (is_digits_inv _ Hd)).
    + exact Hlit.
    + intros Hbad. apply (get_id_raise _ Hv). intros n Hn.
      apply Hint in Hn. destruct Hn as [Hp Hle].
      destruct Hbad as [Hnot|Hover]; [|lia].
      apply Hnot. exact (proj1 (parse_literal_sound _ Hp)).
    + intros Hnone Hl. apply literal_has_digit in Hl. congruence.
Qed.

(** [get_id] raises nothing but [InvalidFieldError], with a message that
    is not the no-identifier warning. *)
Lemma get_id_cases (self : TelegramEntity) :
  (exists o, get_id self = Ok o) \/
  (exists msg, get_id self = Raise (mkExn InvalidFieldError msg)
               /\ msg <> no_identifier_warning).
Proof.
  destruct (mdml.get_value (doc self) "id") as [fv|] eqn:Hv.
  - rewrite (get_id_present _ Hv).
    destruct (py_int (raw_text fv)) as [n|e] eqn:E; [left; now eexists|].
    right. rewrite (py_int_raises _ E). eexists. split; [reflexivity|].
    unfold no_identifier_warning. simpl. discriminate.
  - left. exists None. unfold get_id. now rewrite Hv.
Qed.

(** [get_type] raises nothing but [MissingFieldError] and
    [InvalidTypeError]. *)
Lemma get_type_cases (self : TelegramEntity) :
  (exists t, get_type self = Ok t) \/
  (exists cls msg, get_type self = Raise (mkExn cls msg)
                   /\ (cls = MissingFieldError \/ cls = InvalidTypeError)
                   /\ msg <> no_identifier_warning).
Proof.
  unfold get_type. destruct (mdml.get_value (doc self) "type") as [fv|].
  - match goal with
    | |- context [if ?b then _ else _] => destruct b
    end.
    + right. do 2 eexists. split; [reflexivity|]. split; [now right|].
      unfold no_identifier_warning. simpl. discriminate.
    + left. now eexists.
  - right. do 2 eexists. split; [reflexivity|]. split; [now left|].
    unfold no_identifier_warning. discriminate.
Qed.

(** *** Handles *)

Lemma UsernameValue_new_raises (v : string) (d : option datetime)
    (t : option string) (s : bool) (e : exn) :
  UsernameValue_new v d t s = Raise e -> exn_cls e = InvalidUsernameError.
Proof.
  unfold UsernameValue_new.
  match goal with
  | |- context [if ?b then _ else _] => destruct b
  end; [|discriminate].
  now intros [= <-].
Qed.

(** One turn of the loop appends the handle of the item, if it has one. *)
Lemma get_usernames_body_eq (usernames : list UsernameValue)
    (fv : mdml.FieldValue) :
  get_usernames_body usernames fv
  = Ok (usernames ++ match spec_handle_of fv with
                     | Some u => [u]
                     | None => []
                     end)%list.
Proof.
  unfold get_usernames_body, spec_handle_of. fold (raw_text fv).
  destruct (startswith (raw_text fv) "@"); simpl; [|now rewrite app_nil_r].
  destruct (UsernameValue_new _ _ _ _) as [u|e] eqn:E; simpl; [reflexivity|].
  rewrite (UsernameValue_new_raises _ _ _ _ E). simpl. now rewrite app_nil_r.
Qed.

Lemma get_usernames_loop (fvs : list mdml.FieldValue) (acc : list UsernameValue) :
  for_each fvs get_usernames_body acc
  = Ok (acc ++ filter_map spec_handle_of fvs)%list.
Proof.
  revert acc. induction fvs as [|fv fvs IH]; intros acc; simpl.
  - now rewrite app_nil_r.
  - rewrite get_usernames_body_eq. simpl. rewrite IH, <- app_assoc.
    now destruct (spec_handle_of fv).
Qed.

Lemma filter_map_In (X Y : Type) (f : X -> option Y) (l : list X) (y : Y) :
  In y (filter_map f l) <-> exists x, In x l /\ f x = Some y.
Proof.
  induction l as [|x l IH]; simpl.
  - split; [contradiction | now intros (? & [] & _)].
  - destruct (f x) as [y'|] eqn:E; simpl; rewrite IH; split.
    + intros [<-|(x' & Hx & Hf)]; [exists x; auto | exists x'; auto].
    + intros (x' & [<-|Hx] & Hf); [left; congruence | right; now exists x'].
    + intros (x' & Hx & Hf). exists x'; auto.
    + intros (x' & [<-|Hx] & Hf); [congruence | now exists x'].
Qed.

Lemma filter_map_length (X Y : Type) (f : X -> option Y) (l : list X) :
  (List.length (filter_map f l) <= List.length l)%nat.
Proof.
  induction l as [|x l IH]; simpl; [lia|]. destruct (f x); simpl; lia.
Qed.

Lemma spec_handle_of_some (fv : mdml.FieldValue) (u : UsernameValue) :
  spec_handle_of fv = Some u <->
  startswith (raw_text fv) "@" = true /\
  UsernameValue_new (raw_text fv) (mdml.datetime_obj fv) (mdml.details fv)
    (mdml.is_strikethrough fv) = Ok u.
Proof.
  unfold spec_handle_of. destruct (startswith (raw_text fv) "@").
  - destruct (UsernameValue_new _ _ _ _) as [u'|e].
    + split; [intros [= ->]; now split | intros [_ [= ->]]; reflexivity].
    + split; [discriminate | intros [_ Hx]; discriminate].
  - split; [discriminate | intros [Hx _]; discriminate].
Qed.

(** [get_usernames] never raises. *)
Lemma get_usernames_eq (self : TelegramEntity) :
  get_usernames self
  = Ok (HistoricalCollection_init
          match mdml.get_field (doc self) "username" with
          | Some field => filter_map spec_handle_of (mdml.values field)
          | None => []
          end).
Proof.
  unfold get_usernames. destruct (mdml.get_field (doc self) "username"); [|reflexivity].
  now rewrite get_usernames_loop.
Qed.
End EntityClaims.

Section ProjectionClaims.
Context `{PyRepr}.

(** C7. The handle projection keeps exactly the valid handles: the
    collection is built from the items whose stripped text starts with the
    marker and passes the validation of handles, one value for each such
    item; an item without the marker is skipped and an item that fails the
    validation is dropped, the loop going on with the items that follow.
    A list of the handle [`@valid123`] and the placeholder [`notahandle`]
    projects to a history of length 1 that holds [valid123] only. *)
Theorem get_usernames_projection :
  (forall (self : TelegramEntity) (field : mdml.Field),
     mdml.get_field (doc self) "username" = Some field ->
     exists c,
       get_usernames self = Ok c /\
       c = HistoricalCollection_init (filter_map spec_handle_of (mdml.values field)) /\
       Permutation (values c) (filter_map spec_handle_of (mdml.values field)) /\
       (forall u, In u (values c) <->
          exists fv, In fv (mdml.values field) /\
            startswith (raw_text fv) "@" = true /\
            UsernameValue_new (raw_text fv) (mdml.datetime_obj fv)
              (mdml.details fv) (mdml.is_strikethrough fv) = Ok u) /\
       (len c <= List.length (mdml.values field))%nat) /\
  (exists c,
     get_usernames mixed_handles_entity = Ok c /\
     len c = 1%nat /\
     map (fun u : UsernameValue => value u) (values c) = ["valid123"]).
Proof.
  split.
  - intros self field Hf. rewrite get_usernames_eq, Hf.
    eexists. split; [reflexivity|]. split; [reflexivity|].
    assert (Hperm := sorted_perm sort_key true
                       (filter_map spec_handle_of (mdml.values field))).
    split; [exact Hperm|]. split.
    + intros u. unfold HistoricalCollection_init. cbn [values].
      rewrite sorted_In, filter_map_In.
      split; intros (fv & Hin & Hfv); exists fv; (split; [exact Hin|]);
        now apply spec_handle_of_some.
    + unfold len, HistoricalCollection_init. cbn [values].
      rewrite (Permutation_length Hperm). apply filter_map_length.
  - eexists. split; [vm_compute; reflexivity|]. split; reflexivity.
Qed.

(** *** Invites *)

Lemma InviteValue_new_raises (v : string) (d : option datetime)
    (t : option string) (s : bool) (e : exn) :
  InviteValue_new v d t s = Raise e -> exn_cls e = InvalidInviteError.
Proof.
  unfold InviteValue_new.
  match goal with
  | |- context [let '(_, _) := ?p in _] => destruct p as [url_text hash_text]
  end.
  destruct (re_match_hash hash_text); [discriminate|].
  now intros [= <-].
Qed.

Lemma get_invites_body_ok (invites : list InviteValue) (fv : mdml.FieldValue) :
  exists invites', get_invites_body invites fv = Ok invites'.
Proof.
  unfold get_invites_body.
  match goal with
  | |- context [match ?r with Some _ => _ | None => _ end] => destruct r as [[|c raw]|]
  end; try (now eexists).
  match goal with
  | |- context [if ?b then _ else _] => destruct b
  end; [now eexists|].
  destruct (InviteValue_new _ _ _ _) as [i|e] eqn:E; simpl; [now eexists|].
  rewrite (InviteValue_new_raises _ _ _ _ E). simpl. now eexists.
Qed.

Lemma for_each_ok (S X : Type) (body : S -> X -> result S) (xs : list X) (s : S) :
  (forall s x, exists s', body s x = Ok s') ->
  exists s', for_each xs body s = Ok s'.
Proof.
  intros Hbody. revert s. induction xs as [|x xs IH]; intros s; simpl.
  - now exists s.
  - destruct (Hbody s x) as (s1 & ->). simpl. apply IH.
Qed.

(** [get_invites] never raises. *)
Lemma get_invites_ok (self : TelegramEntity) :
  exists c, get_invites self = Ok c.
Proof.
  unfold get_invites. destruct (mdml.get_field (doc self) "invite") as [field|].
  - destruct (for_each_ok get_invites_body (mdml.values field) []
                get_invites_body_ok) as (l & ->).
    simpl. now eexists.
  - now eexists.
Qed.

(** *** Validation *)

(** [validate] returns the warning of the type check, if any, then the
    warning of the identifier check, if any, then the no-identifier
    warning when [get_id] gave no integer and both histories are empty. *)
Lemma validate_eq (self : TelegramEntity)
    (us : HistoricalCollection UsernameValue)
    (ivs : HistoricalCollection InviteValue) :
  get_usernames self = Ok us ->
  get_invites self = Ok ivs ->
  validate self =
    Ok (match get_type self with Ok _ => [] | Raise e => [exn_msg e] end
        ++ match get_id self with Ok _ => [] | Raise e => [exn_msg e] end
        ++ if negb match get_id self with Ok (Some _) => true | _ => false end
              && negb (0 <? len us)%nat && negb (0 <? len ivs)%nat
           then [no_identifier_warning] else [])%list.
Proof.
  intros Hus Hivs. unfold validate. rewrite Hus, Hivs.
  destruct (get_type_cases self) as [(t & ->)|(cls & msg & -> & Hcls & _)];
    destruct (get_id_cases self) as [(o & ->)|(msg' & -> & _)];
    try (destruct Hcls as [->| ->]); try destruct o; simpl;
    try reflexivity;
    match goal with
    | |- context [if ?b then _ else _] => now destruct b
    end.
Qed.

(** C8, as amended.  [validate] never raises.  Its warnings include the
    no-identifier warning exactly when [get_id] resolves no identifier,
    the [id] field being absent or being present but unparsable, and the
    handle history is empty and the invite history is empty; an entity
    whose identifier resolves gets no such warning. *)
Theorem validate_identifier_warning (self : TelegramEntity) :
  exists ws us ivs,
    validate self = Ok ws /\
    get_usernames self = Ok us /\
    get_invites self = Ok ivs /\
    (In no_identifier_warning ws <->
       (get_id self = Ok None \/ exists e, get_id self = Raise e) /\
       len us = 0%nat /\ len ivs = 0%nat) /\
    ((exists n, get_id self = Ok (Some n)) -> ~ In no_identifier_warning ws).
Proof.
  destruct (get_invites_ok self) as (ivs & Hivs).
  assert (Hus := get_usernames_eq self).
  match type of Hus with _ = Ok ?c => set (us := c) in * end.
  eexists. exists us, ivs. split; [exact (validate_eq _ Hus Hivs)|].
  split; [exact Hus|]. split; [exact Hivs|].
  assert (Hiff :
    In no_identifier_warning
      (match get_type self with Ok _ => [] | Raise e => [exn_msg e] end
       ++ match get_id self with Ok _ => [] | Raise e => [exn_msg e] end
       ++ if negb match get_id self with Ok (Some _) => true | _ => false end
             && negb (0 <? len us)%nat && negb (0 <? len ivs)%nat
          then [no_identifier_warning] else [])%list
    <-> (get_id self = Ok None \/ exists e, get_id self = Raise e) /\
        len us = 0%nat /\ len ivs = 0%nat).
  { rewrite !in_app_iff.
    assert (Hty : ~ In no_identifier_warning
                      match get_type self with Ok _ => [] | Raise e => [exn_msg e] end).
    { destruct (get_type_cases self) as [(t & ->)|(cls & msg & -> & _ & Hmsg)];
        simpl; intuition congruence. }
    assert (Hidw : ~ In no_identifier_warning
                       match get_id self with Ok _ => [] | Raise e => [exn_msg e] end).
    { destruct (get_id_cases self) as [(o & ->)|(msg & -> & Hmsg)];
        simpl; intuition congruence. }
    assert (Hlen : forall n, negb (0 <? n)%nat = true <-> n = 0%nat).
    { intros n. rewrite negb_true_iff, Nat.ltb_ge. lia. }
    assert (Hres : negb match get_id self with Ok (Some _) => true | _ => false end = true
                   <-> (get_id self = Ok None \/ exists e, get_id self = Raise e)).
    { destruct (get_id self) as [[n|]|e]; simpl; split; try discriminate; auto.
      - intros [Hx|(e & Hx)]; discriminate.
      - intros _. right. now exists e. }
    destruct (negb match get_id self with Ok (Some _) => true | _ => false end
              && negb (0 <? len us)%nat && negb (0 <? len ivs)%nat) eqn:C.
    - apply andb_true_iff in C. destruct C as [C C3].
      apply andb_true_iff in C. destruct C as [C1 C2].
      rewrite Hlen in C2, C3. rewrite Hres in C1.
      split; [tauto|]. intros _. right. right. now left.
    - split; [intros [Hx|[Hx|[]]]; tauto|].
      intros (C1 & C2 & C3). rewrite <- Hres in C1. rewrite <- Hlen in C2, C3.
      rewrite C1, C2, C3 in C. discriminate. }
  split; [exact Hiff|].
  intros (n & Hn) Hin. apply Hiff in Hin. destruct Hin as [[Hx|(e & Hx)] _];
    rewrite Hn in Hx; discriminate.
Qed.
End ProjectionClaims.

(** ** The statements on concrete documents *)

(** C4 as first stated does not hold: the stripped text [-5] is not made
    of digits, yet [get_id] parses it and raises nothing. *)
Lemma get_id_signed_text_parsed :
  ~ (forall fv,
       mdml.get_value (doc signed_id_entity) "id" = Some fv ->
       is_digits (raw_text fv) = false ->
       exists e, @get_id quoting signed_id_entity = Raise e
                 /\ exn_cls e = InvalidFieldError).
Proof.
  intros Hclaim.
  destruct (Hclaim (plain "`-5`") eq_refl eq_refl) as (e & He & _).
  vm_compute in He. discriminate.
Qed.

(** C8 as first stated does not hold: with an [id] field that is present
    but unparsable, and no handle nor invite, the no-identifier warning is
    listed although the field is not absent. *)
Lemma validate_unparsable_id_warned :
  ~ (forall ws,
       @validate quoting unparsable_id_entity = Ok ws ->
       (In no_identifier_warning ws <->
          mdml.get_value (doc unparsable_id_entity) "id" = None /\
          (exists us, @get_usernames quoting unparsable_id_entity = Ok us
                      /\ len us = 0%nat) /\
          (exists ivs, @get_invites quoting unparsable_id_entity = Ok ivs
                       /\ len ivs = 0%nat))).
Proof.
  intros Hclaim.
  assert (Hv : @validate quoting unparsable_id_entity
               = Ok ["Invalid ID format: '`not_a_number`'"; no_identifier_warning])
    by (vm_compute; reflexivity).
  destruct (Hclaim _ Hv) as [Hto _].
  destruct Hto as (Habsent & _); [right; now left|].
  vm_compute in Habsent. discriminate.
Qed.


Lemma UsernameValue_roundtrip_witness :
  exists u,
    @UsernameValue_new quoting "@valid123" None None false = Ok u /\
    with_at u = "@valid123" /\
    value u = "valid123" /\
    startswith (value u) "@" = false.
Proof.
  apply (@UsernameValue_roundtrip quoting "valid123" None None false).
  - reflexivity.
  - simpl; lia.
  - simpl; lia.
Defined.

Lemma get_id_resolution_witness :
  @get_id quoting numeric_id_entity = Ok (Some 123456789%Z) /\
  @get_id quoting signed_id_entity = Ok (Some (-5)%Z) /\
  @get_id quoting unparsable_id_entity
  = Raise (mkExn InvalidFieldError "Invalid ID format: '`not_a_number`'") /\
  exists msg,
    @get_id quoting long_id_entity = Raise (mkExn InvalidFieldError msg).
Proof.
  split; [|split; [|split]].
  - destruct (proj2 (@get_id_resolution quoting numeric_id_entity)
                (plain "`123456789`") eq_refl) as (Hdigits & _).
    apply Hdigits; [reflexivity|]. apply Nat.leb_le. reflexivity.
  - destruct (proj2 (@get_id_resolution quoting signed_id_entity)
                (plain "`-5`") eq_refl) as (_ & Hliteral & _).
    apply Hliteral.
    + apply literal_minus, groups_last. reflexivity.
    + apply Nat.leb_le. reflexivity.
  - destruct (proj2 (@get_id_resolution quoting unparsable_id_entity)
                (plain "`not_a_number`") eq_refl) as (_ & _ & Hother & _).
    apply Hother. left. intros Hlit. apply parse_literal_complete in Hlit.
    destruct Hlit as (n & Hn). vm_compute in Hn. discriminate.
  - destruct (proj2 (@get_id_resolution quoting long_id_entity)
                (plain (repeat_char "1" 4301)) eq_refl) as (_ & _ & Hother & _).
    eexists. apply Hother. right. apply Nat.ltb_lt. vm_compute. reflexivity.
Defined.

Lemma get_usernames_projection_witness :
  exists c,
    @get_usernames quoting mixed_handles_entity = Ok c /\
    c = HistoricalCollection_init
          (filter_map (@spec_handle_of quoting)
             [plain "`@valid123`"; plain "`notahandle`"]) /\
    len c = 1%nat.
Proof.
  destruct (proj1 (@get_usernames_projection quoting) mixed_handles_entity
              (mdml.mkField [plain "`@valid123`"; plain "`notahandle`"]) eq_refl)
    as (c & Hc & Heq & _).
  exists c. split; [exact Hc|]. split; [exact Heq|].
  rewrite Heq. reflexivity.
Defined.

Lemma validate_identifier_warning_witness :
  exists ws,
    @validate quoting numeric_id_entity = Ok ws /\
    ~ In no_identifier_warning ws.
Proof.
  destruct (@validate_identifier_warning quoting numeric_id_entity)
    as (ws & us & ivs & Hv & _ & _ & _ & Hvalid).
  exists ws. split; [exact Hv|].
  apply Hvalid. exists 123456789%Z. reflexivity.
Defined.

(* ================================================================== *)
(** * Part III. Further properties of the module                       *)
(* ================================================================== *)

(** ** The stable sort and filters *)

Section SortedFilter.
Variable A : Type.
Variable key : A -> N.
Variable reverse : bool.

Lemma insert_first (x : A) (l : list A) :
  (forall z, In z l -> precedes reverse (key z) (key x) = false) ->
  insert key reverse x l = x :: l.
Proof.
  destruct l as [|y ys]; intros Hl; simpl; [reflexivity|].
  now rewrite (Hl y (or_introl eq_refl)).
Qed.

Lemma insert_filter_drop (p : A -> bool) (x : A) (l : list A) :
  p x = false -> filter p (insert key reverse x l) = filter p l.
Proof.
  intros Px. induction l as [|y ys IH]; simpl; [now rewrite Px|].
  destruct (precedes reverse (key y) (key x)); simpl.
  - rewrite IH. reflexivity.
  - now rewrite Px.
Qed.

Lemma insert_filter_keep (p : A -> bool) (x : A) (l : list A) :
  StronglySorted (in_order key reverse) l -> p x = true ->
  filter p (insert key reverse x l) = insert key reverse x (filter p l).
Proof.
  intros Hs Px. induction Hs as [|y ys Hs IH Hall]; simpl; [now rewrite Px|].
  destruct (precedes reverse (key y) (key x)) eqn:E; simpl.
  - destruct (p y); simpl; [now rewrite E, IH | exact IH].
  - rewrite Px. symmetry.
    change (if p y then y :: filter p ys else filter p ys) with (filter p (y :: ys)).
    apply insert_first. intros z Hz. apply filter_In in Hz. destruct Hz as [Hz _].
    destruct Hz as [<-|Hz]; [exact E|].
    rewrite Forall_forall in Hall.
    exact (@in_order_trans _ key reverse x y z E (Hall z Hz)).
Qed.

(** Filtering commutes with the stable sort. *)
Lemma sorted_filter (p : A -> bool) (l : list A) :
  filter p (sorted key reverse l) = sorted key reverse (filter p l).
Proof.
  induction l as [|x l IH]; [reflexivity|].
  change (sorted key reverse (x :: l))
    with (insert key reverse x (sorted key reverse l)).
  simpl filter at 2. destruct (p x) eqn:Px.
  - rewrite insert_filter_keep by (auto using sorted_ordered). now rewrite IH.
  - rewrite insert_filter_drop by exact Px. exact IH.
Qed.
End SortedFilter.

(** ** Collections *)

Section CollectionExtras.
Context {A : Type} `{Historical A}.

(** X1. Construction keeps all the values: the stored list is a
    rearrangement of the given one, of the same length, and the collection
    is truthy exactly when the given list is not empty. *)
Theorem init_keeps_values (vs : list A) :
  Permutation (values (HistoricalCollection_init vs)) vs /\
  len (HistoricalCollection_init vs) = List.length vs /\
  (bool_of (HistoricalCollection_init vs) = true <-> vs <> []).
Proof.
  assert (Hp : Permutation (values (HistoricalCollection_init vs)) vs)
    by apply sorted_perm.
  split; [exact Hp|].
  assert (Hlen : len (HistoricalCollection_init vs) = List.length vs)
    by (unfold len; now apply Permutation_length).
  split; [exact Hlen|].
  unfold bool_of. rewrite Hlen, Nat.ltb_lt.
  destruct vs; simpl; split; try congruence; lia.
Qed.

(** X2. Constructing a collection from the stored values of a
    collection gives the same collection. *)
Theorem init_idempotent (vs : list A) :
  HistoricalCollection_init (values (HistoricalCollection_init vs))
  = HistoricalCollection_init vs.
Proof.
  unfold HistoricalCollection_init. cbn [values]. f_equal.
  apply sorted_of_ordered, sorted_ordered.
Qed.

(** X4. [active] on a constructed collection is the stored list of the
    collection constructed from the values that are not strikethrough: it
    holds these values and no other. *)
Theorem active_of_constructed (vs : list A) :
  active (HistoricalCollection_init vs)
    = values (HistoricalCollection_init (filter (fun v => negb (struck v)) vs)) /\
  (forall v, In v (active (HistoricalCollection_init vs))
             <-> In v vs /\ struck v = false).
Proof.
  assert (Ha : active (HistoricalCollection_init vs)
               = values (HistoricalCollection_init
                           (filter (fun v => negb (struck v)) vs))).
  { rewrite active_filter. apply sorted_filter. }
  split; [exact Ha|].
  intros v. rewrite Ha. unfold HistoricalCollection_init. cbn [values].
  rewrite sorted_In, filter_In, negb_true_iff. tauto.
Qed.

Lemma last_item_in_list (B : Type) (l : list B) (v : B) :
  last_item l = Some v -> In v l.
Proof.
  induction l as [|x [|y l] IH]; simpl; [discriminate | intros [= ->]; now left |].
  intros Hl. right. now apply IH.
Qed.

Lemma undated_or_dated (l : list A) :
  filter dated l = [] -> filter undated l = l.
Proof.
  intros Hd. apply filter_all. intros v Hv.
  destruct (dated v) eqn:E; [|now apply not_dated_undated].
  exfalso. now apply (filter_nonempty dated l v Hv E).
Qed.

Lemma latest_result_facts (c : HistoricalCollection A) (allow : bool) :
  (latest c allow = None
   <-> forall v, In v (values c) -> is_candidate allow v = false) /\
  (forall v, latest c allow = Some v ->
     In v (values c) /\
     is_candidate allow v = true /\
     (dated v = false ->
      forall w, In w (values c) -> is_candidate allow w = true ->
                dated w = false)).
Proof.
  rewrite latest_eq. cbv zeta.
  remember (filter (is_candidate allow) (values c)) as cands eqn:Ec.
  assert (Hc : forall v, In v cands <-> In v (values c) /\ is_candidate allow v = true)
    by (intros v; rewrite Ec; apply filter_In).
  clear Ec.
  destruct (filter dated cands) as [|b l] eqn:Ed.
  - cbn [truthy_list]. cbv iota.
    assert (Hu := undated_or_dated _ Ed). rewrite Hu.
    assert (Hnd : forall w, In w cands -> dated w = false).
    { intros w Hw. destruct (dated w) eqn:E; [|reflexivity].
      exfalso. now apply (filter_nonempty dated cands w Hw E). }
    split.
    + split.
      * intros Hn v Hv. destruct (is_candidate allow v) eqn:E; [|reflexivity].
        assert (In v cands) as Hin by (apply Hc; auto).
        destruct cands; [contradiction | discriminate].
      * intros Hall. destruct cands as [|v l']; [reflexivity|].
        destruct (proj1 (Hc v) (or_introl eq_refl)) as [Hin Hv].
        rewrite (Hall v Hin) in Hv. discriminate.
    + intros v Hv. apply hd_error_In in Hv. destruct (proj1 (Hc v) Hv).
      repeat split; auto. intros _ w Hw Hcw. apply Hnd, Hc. auto.
  - assert (Hne : filter dated cands <> []) by (rewrite Ed; discriminate).
    destruct (py_max_dated _ Hne) as (v0 & d & Hmax & Hdate & _ & Hfirst).
    rewrite Ed in Hmax. cbn [truthy_list]. cbv iota. rewrite Hmax.
    assert (Hin : In v0 cands) by (apply hd_error_In, filter_In in Hfirst; tauto).
    destruct (proj1 (Hc v0) Hin) as [Hv0 Hc0].
    split.
    + split; [discriminate|]. intros Hall. rewrite (Hall v0 Hv0) in Hc0. discriminate.
    + intros v [= <-]. repeat split; auto.
      unfold dated. rewrite Hdate. discriminate.
Qed.

(** X5. [latest] returns nothing exactly when no stored value passes the
    strikethrough filter.  What it returns is a stored value that passes
    the filter (with [allow_strikethrough=False], a value that is not
    strikethrough), and an undated one only when no value that passes the
    filter is dated. *)
Theorem latest_result (c : HistoricalCollection A) (allow : bool) :
  (latest c allow = None
   <-> forall v, In v (values c) -> is_candidate allow v = false) /\
  (forall v, latest c allow = Some v ->
     In v (values c) /\
     is_candidate allow v = true /\
     (dated v = false ->
      forall w, In w (values c) -> is_candidate allow w = true ->
                dated w = false)).
Proof. apply latest_result_facts. Qed.

Lemma filter_ext_in (B : Type) (p q : B -> bool) (l : list B) :
  (forall x, p x = q x) -> filter p l = filter q l.
Proof.
  intros Hpq. induction l as [|x l IH]; simpl; [reflexivity|].
  now rewrite Hpq, IH.
Qed.

(** X6. On a constructed collection, [latest] with the default
    [allow_strikethrough=False] is [latest(allow_strikethrough=True)] on
    the collection constructed from the values that are not
    strikethrough. *)
Theorem latest_default_of_constructed (vs : list A) :
  latest (HistoricalCollection_init vs) false
  = latest (HistoricalCollection_init (filter (fun v => negb (struck v)) vs)) true.
Proof.
  rewrite !latest_eq. cbv zeta.
  assert (Hl : filter (is_candidate false) (values (HistoricalCollection_init vs))
               = values (HistoricalCollection_init
                           (filter (fun v => negb (struck v)) vs))).
  { unfold HistoricalCollection_init. cbn [values].
    rewrite <- sorted_filter. now apply filter_ext_in. }
  rewrite Hl. now rewrite (@filter_all _ (is_candidate true)) by reflexivity.
Qed.

Lemma oldest_result_facts (c : HistoricalCollection A) :
  (oldest c = None <-> values c = []) /\
  (forall v, oldest c = Some v ->
     In v (values c) /\
     (dated v = false -> forall w, In w (values c) -> dated w = false)).
Proof.
  rewrite oldest_eq.
  destruct (filter dated (values c)) as [|b l] eqn:Ed.
  - cbn [truthy_list]. cbv iota.
    assert (Hu := undated_or_dated _ Ed). rewrite Hu.
    split.
    + destruct (values c) as [|x xs] eqn:E; [tauto|].
      destruct (@last_item_some _ (x :: xs)) as (v & ->); [discriminate|].
      split; discriminate.
    + intros v Hv. split; [now apply last_item_in_list|].
      intros _ w Hw. destruct (dated w) eqn:E; [|reflexivity].
      exfalso. now apply (filter_nonempty dated (values c) w Hw E).
  - assert (Hne : filter dated (values c) <> []) by (rewrite Ed; discriminate).
    destruct (py_min_dated _ Hne) as (v0 & d & Hmin & Hdate & _ & Hfirst).
    rewrite Ed in Hmin. cbn [truthy_list]. cbv iota. rewrite Hmin.
    assert (Hin : In v0 (values c))
      by (apply hd_error_In, filter_In in Hfirst; tauto).
    split.
    + split; [discriminate|]. intros E. rewrite E in Hin. contradiction.
    + intros v [= <-]. split; [exact Hin|].
      unfold dated. rewrite Hdate. discriminate.
Qed.

(** X7. [oldest] returns nothing exactly on the empty collection.  What
    it returns is a stored value, and an undated one only when no stored
    value is dated. *)
Theorem oldest_result (c : HistoricalCollection A) :
  (oldest c = None <-> values c = []) /\
  (forall v, oldest c = Some v ->
     In v (values c) /\
     (dated v = false -> forall w, In w (values c) -> dated w = false)).
Proof. apply oldest_result_facts. Qed.

(** X8. The date of what [oldest] returns is never after the date of
    what [latest(allow_strikethrough=True)] returns. *)
Theorem oldest_not_after_latest (c : HistoricalCollection A) (v w : A)
    (dv dw : datetime) :
  latest c true = Some v -> oldest c = Some w ->
  date_of v = Some dv -> date_of w = Some dw ->
  (dw <= dv)%N.
Proof.
  rewrite latest_eq. cbv zeta.
  rewrite (@filter_all _ (is_candidate true)) by reflexivity.
  intros Hl Ho Hv Hw.
  assert (Hwin : In w (values c)) by (apply (proj2 (oldest_result_facts c)); exact Ho).
  destruct (filter dated (values c)) as [|b l] eqn:Ed.
  - exfalso. assert (In w (filter dated (values c))) as Hin.
    { apply filter_In. split; [exact Hwin|]. unfold dated. now rewrite Hw. }
    now rewrite Ed in Hin.
  - assert (Hne : filter dated (values c) <> []) by (rewrite Ed; discriminate).
    destruct (py_max_dated _ Hne) as (v0 & d & Hmax & Hdate & Hbest & _).
    rewrite Ed in Hmax. cbn [truthy_list] in Hl. cbv iota in Hl.
    rewrite Hmax in Hl. injection Hl as ->.
    rewrite Hdate in Hv. injection Hv as ->.
    exact (Hbest w dw Hwin Hw).
Qed.
End CollectionExtras.

(** ** The patterns of handles and hashes *)

(** What [^[cls]{lo,hi}$] accepts: [lo] to [hi] characters of the class,
    and the same followed by one newline. *)
Lemma match_repeat_shape (cls : ascii -> bool) (s : string) (lo : nat)
    (hi : option nat) :
  match_repeat cls lo hi s = true ->
  exists name,
    all_chars cls name = true /\
    (lo <= String.length name)%nat /\
    (forall h, hi = Some h -> (String.length name <= h)%nat) /\
    (s = name \/ s = name ++ newline_text).
Proof.
  revert lo hi. induction s as [|c s IH]; intros lo hi; cbn [match_repeat].
  - rewrite orb_false_r, andb_true_r. intros Hlo. apply Nat.eqb_eq in Hlo.
    exists "". repeat split; simpl; [lia | intros; lia | now left].
  - intros Hm. apply orb_true_iff in Hm. destruct Hm as [Hm|Hm].
    + apply andb_true_iff in Hm. destruct Hm as [Hlo Hd].
      apply Nat.eqb_eq in Hlo. destruct s; [|discriminate].
      simpl in Hd. apply Ascii.eqb_eq in Hd. subst c.
      exists "". repeat split; simpl; [lia | intros; lia | now right].
    + apply andb_true_iff in Hm. destruct Hm as [Hc Hm].
      destruct hi as [[|h]|]; [discriminate | |];
        destruct (IH _ _ Hm) as (name & Hn & Hlo & Hhi & Hs);
        exists (String c name); simpl; rewrite Hc, Hn;
        (repeat split; [lia | | destruct Hs as [-> | ->]; auto]).
      * intros h' [= <-]. specialize (Hhi h eq_refl). lia.
      * intros h' Hh. discriminate.
Qed.

Lemma match_repeat_accepts (cls : ascii -> bool) (name : string) (lo : nat)
    (hi : option nat) :
  all_chars cls name = true ->
  (lo <= String.length name)%nat ->
  (forall h, hi = Some h -> (String.length name <= h)%nat) ->
  match_repeat cls lo hi name = true /\
  match_repeat cls lo hi (name ++ newline_text) = true.
Proof.
  revert lo hi. induction name as [|c name IH]; intros lo hi Hn Hlo Hhi.
  - simpl in Hlo. assert (lo = 0)%nat as -> by lia. split; reflexivity.
  - simpl in Hn, Hlo. apply andb_true_iff in Hn. destruct Hn as [Hc Hn].
    assert (Hrec : forall hi', (forall h, hi' = Some h -> (String.length name <= h)%nat) ->
              match_repeat cls (lo - 1) hi' name = true /\
              match_repeat cls (lo - 1) hi' (name ++ newline_text) = true).
    { intros hi' Hhi'. apply IH; [exact Hn | lia | exact Hhi']. }
    destruct hi as [h|].
    + specialize (Hhi h eq_refl). simpl in Hhi. destruct h as [|h]; [lia|].
      destruct (Hrec (Some h)) as [H1 H2]; [intros ? [= <-]; lia|].
      cbn [match_repeat append]. rewrite Hc, H1, H2. simpl.
      now rewrite !orb_true_r.
    + destruct (Hrec None) as [H1 H2]; [discriminate|].
      cbn [match_repeat append]. rewrite Hc, H1, H2. simpl.
      now rewrite !orb_true_r.
Qed.

Lemma startswith_first (s : string) (m : ascii) :
  startswith s (String m "") = true -> s = String m (drop_first s).
Proof.
  destruct s as [|c s]; simpl; [discriminate|].
  rewrite andb_true_r. intros Hc. apply Ascii.eqb_eq in Hc. now subst c.
Qed.

Section ValueExtras.
Context `{PyRepr}.

Lemma UsernameValue_accepts_facts (v : string) (d : option datetime)
    (t : option string) (s : bool) (u : UsernameValue) :
  let payload := if startswith v "@" then drop_first v else v in
  UsernameValue_new v d t s = Ok u <->
  u = mkUsernameValue (mkHistoricalValue payload d t s) /\
  exists name,
    all_chars is_word_char name = true /\
    (5 <= String.length name <= 32)%nat /\
    (payload = name \/ payload = name ++ newline_text).
Proof.
  cbv zeta. unfold UsernameValue_new.
  generalize (if startswith v "@" then drop_first v else v). intros payload.
  destruct (re_match_username payload) eqn:E; cbn [negb]; split.
  - intros [= <-]. split; [reflexivity|].
    destruct (match_repeat_shape _ _ _ _ E) as (name & Hn & Hlo & Hhi & Hs).
    exists name. specialize (Hhi 32%nat eq_refl). auto.
  - intros [-> _]. reflexivity.
  - discriminate.
  - intros [_ (name & Hn & [Hlo Hhi] & Hs)]. exfalso.
    destruct (@match_repeat_accepts is_word_char name 5 (Some 32%nat) Hn Hlo)
      as [H1 H2]; [now intros ? [= <-]|].
    unfold re_match_username in E. destruct Hs as [-> | ->]; congruence.
Qed.

(** X9. A handle value is constructed exactly when the input, one
    leading marker left out, is 5 to 32 characters among letters, digits
    and the underscore, possibly followed by one newline (which the
    pattern's [$] lets through); the value stores that text and the
    metadata it was given. *)
Theorem UsernameValue_accepts (v : string) (d : option datetime)
    (t : option string) (s : bool) (u : UsernameValue) :
  let payload := if startswith v "@" then drop_first v else v in
  UsernameValue_new v d t s = Ok u <->
  u = mkUsernameValue (mkHistoricalValue payload d t s) /\
  exists name,
    all_chars is_word_char name = true /\
    (5 <= String.length name <= 32)%nat /\
    (payload = name \/ payload = name ++ newline_text).
Proof. apply UsernameValue_accepts_facts. Qed.

(** X10. A constructed handle value is constructed again, the same, from
    its display form [with_at] and from its stored payload. *)
Theorem UsernameValue_reconstruct (v : string) (d : option datetime)
    (t : option string) (s : bool) (u : UsernameValue) :
  UsernameValue_new v d t s = Ok u ->
  UsernameValue_new (with_at u) d t s = Ok u /\
  UsernameValue_new (value u) d t s = Ok u.
Proof.
  intros Hu. destruct (UsernameValue_stored _ _ _ _ Hu) as [Hm Hno].
  assert (Hv : u = mkUsernameValue (mkHistoricalValue (value u) d t s)).
  { clear Hm Hno. revert Hu. unfold UsernameValue_new.
    destruct (re_match_username _); cbn [negb]; [|discriminate].
    intros Heq. injection Heq as Heq. now rewrite <- Heq. }
  split; unfold UsernameValue_new, with_at.
  - change (startswith ("@" ++ value u) "@") with true. cbv iota.
    change (drop_first ("@" ++ value u)) with (value (username_base u)).
    rewrite Hm. cbn [negb]. now rewrite <- Hv.
  - rewrite Hno, Hm. cbn [negb]. now rewrite <- Hv.
Qed.

Lemma InviteValue_new_parts (v : string) (d : option datetime)
    (t : option string) (s : bool) :
  InviteValue_new v d t s =
    if negb (re_match_hash (snd (invite_parts v))) then
      Raise (mkExn InvalidInviteError
               ("Invalid invite hash format: " ++ repr (snd (invite_parts v)) ++ ". " ++
                "Must contain only alphanumeric characters, dashes, and underscores."))
    else
      Ok (mkInviteValue (mkHistoricalValue (fst (invite_parts v)) d t s)
            (snd (invite_parts v))).
Proof.
  unfold InviteValue_new, invite_parts.
  destruct (startswith v "https://t.me/+"); [reflexivity|].
  destruct (startswith v "http://t.me/+"); [reflexivity|].
  now destruct (startswith v "+").
Qed.

Lemma InviteValue_invariant_facts (v : string) (d : option datetime)
    (t : option string) (s : bool) (i : InviteValue) :
  InviteValue_new v d t s = Ok i ->
  re_match_hash (hash i) = true /\
  (exists h, all_chars is_hash_char h = true /\ (1 <= String.length h)%nat /\
             (hash i = h \/ hash i = h ++ newline_text)) /\
  date i = d /\ details i = t /\ is_strikethrough i = s /\
  (startswith v "https://t.me/+" = true \/ startswith v "http://t.me/+" = true ->
   url i = v) /\
  (startswith v "https://t.me/+" = false ->
   startswith v "http://t.me/+" = false ->
   url i = "https://t.me/+" ++ hash i).
Proof.
  rewrite InviteValue_new_parts.
  destruct (re_match_hash (snd (invite_parts v))) eqn:E; cbn [negb]; [|discriminate].
  intros [= <-]. cbn [hash url value date details is_strikethrough invite_base].
  split; [exact E|]. split.
  { destruct (match_repeat_shape _ _ _ _ E) as (h & Hh & Hlo & _ & Hs).
    now exists h. }
  repeat split.
  - unfold invite_parts. intros [Hs | Hp].
    + now rewrite Hs.
    + rewrite Hp. now destruct (startswith v "https://t.me/+").
  - unfold invite_parts. intros -> ->.
    destruct (startswith v "+") eqn:Eb; [|reflexivity].
    cbn [fst snd]. now rewrite (startswith_first _ _ Eb) at 1.
Qed.

(** X11. A constructed invite value has a hash that the hash pattern
    accepts, a non-empty run of letters, digits, dashes and underscores,
    possibly followed by one newline, and carries the metadata it was
    given.  Its url is the input itself when the input is a full URL of
    either scheme, and ["https://t.me/+"] followed by the hash
    otherwise. *)
Theorem InviteValue_invariant (v : string) (d : option datetime)
    (t : option string) (s : bool) (i : InviteValue) :
  InviteValue_new v d t s = Ok i ->
  re_match_hash (hash i) = true /\
  (exists h, all_chars is_hash_char h = true /\ (1 <= String.length h)%nat /\
             (hash i = h \/ hash i = h ++ newline_text)) /\
  date i = d /\ details i = t /\ is_strikethrough i = s /\
  (startswith v "https://t.me/+" = true \/ startswith v "http://t.me/+" = true ->
   url i = v) /\
  (startswith v "https://t.me/+" = false ->
   startswith v "http://t.me/+" = false ->
   url i = "https://t.me/+" ++ hash i).
Proof. apply InviteValue_invariant_facts. Qed.

(** X12. A constructed invite value is constructed again, the same, from
    its url. *)
Theorem InviteValue_reconstruct (v : string) (d : option datetime)
    (t : option string) (s : bool) (i : InviteValue) :
  InviteValue_new v d t s = Ok i ->
  InviteValue_new (url i) d t s = Ok i.
Proof.
  intros Hi. destruct (InviteValue_invariant_facts _ _ _ _ Hi)
    as (Hm & _ & _ & _ & _ & Hfull & Hbare).
  destruct (startswith v "https://t.me/+") eqn:Es.
  { rewrite Hfull by now left. exact Hi. }
  destruct (startswith v "http://t.me/+") eqn:Ep.
  { rewrite Hfull by now right. exact Hi. }
  assert (Hurl := Hbare eq_refl eq_refl).
  assert (Hc : contains (hash i) "https://t.me/+" = false)
    by (now apply hash_contains_no).
  assert (Hv : i = mkInviteValue (mkHistoricalValue (url i) d t s) (hash i)).
  { clear - Hi. revert Hi. rewrite InviteValue_new_parts.
    destruct (re_match_hash _); cbn [negb]; [|discriminate].
    intros Heq. injection Heq as Heq. now rewrite <- Heq. }
  rewrite InviteValue_new_parts.
  assert (Hparts : invite_parts (url i) = (url i, hash i)).
  { rewrite Hurl. unfold invite_parts.
    rewrite startswith_literal, (replace_leading _ _ _ Hc). reflexivity. }
  rewrite Hparts. cbn [fst snd]. rewrite Hm. cbn [negb]. now rewrite <- Hv.
Qed.
End ValueExtras.

(** ** Status values *)

Lemma lower_char_idem (c : ascii) : lower_char (lower_char c) = lower_char c.
Proof.
  destruct c as [b0 b1 b2 b3 b4 b5 b6 b7].
  destruct b0, b1, b2, b3, b4, b5, b6, b7; reflexivity.
Qed.

Lemma lower_idem (s : string) : lower (lower s) = lower s.
Proof.
  induction s as [|c s IH]; simpl; [reflexivity|].
  now rewrite lower_char_idem, IH.
Qed.

Lemma existsb_eqb_In (x : string) (l : list string) :
  existsb (String.eqb x) l = true <-> In x l.
Proof.
  rewrite existsb_exists. split.
  - intros (y & Hy & E). apply String.eqb_eq in E. now subst y.
  - intros Hx. exists x. split; [exact Hx | apply String.eqb_refl].
Qed.

Section StatusExtras.
Context `{PyRepr}.

Lemma StatusValue_new_ok (v : string) (d : option datetime) (t : option string)
    (s : bool) (r x : option string) (sv : StatusValue) :
  StatusValue_new v d t s r x = Ok sv <->
  In (lower v) VALID_STATUSES /\
  sv = mkStatusValue (mkHistoricalValue (lower v) d t s) r x.
Proof.
  unfold StatusValue_new.
  destruct (existsb (String.eqb (lower v)) VALID_STATUSES) eqn:E; cbn [negb].
  - apply existsb_eqb_In in E. split.
    + intros Heq. injection Heq as Heq. auto.
    + intros [_ ->]. reflexivity.
  - split; [discriminate|]. intros [Hin _].
    apply existsb_eqb_In in Hin. congruence.
Qed.

Lemma StatusValue_new_raises (v : string) (d : option datetime)
    (t : option string) (s : bool) (r x : option string) (e : exn) :
  StatusValue_new v d t s r x = Raise e -> exn_cls e = InvalidStatusError.
Proof.
  unfold StatusValue_new.
  destruct (existsb _ _); cbn [negb]; [discriminate|].
  intros Heq. injection Heq as Heq. now rewrite <- Heq.
Qed.

(** X13. The letter case of a status does not matter to the
    construction of a status value.  A constructed status value stores the
    lowercase status, which is one of the five states, keeps the metadata,
    the reason and the text it was given, and is constructed again, the
    same, from its stored status. *)
Theorem StatusValue_normalised (v : string) (d : option datetime)
    (t : option string) (s : bool) (r x : option string) :
  StatusValue_new (lower v) d t s r x = StatusValue_new v d t s r x /\
  (forall sv, StatusValue_new v d t s r x = Ok sv ->
     In (value sv) VALID_STATUSES /\
     value sv = lower v /\
     date sv = d /\ details sv = t /\ is_strikethrough sv = s /\
     reason sv = r /\ text sv = x /\
     StatusValue_new (value sv) d t s r x = Ok sv).
Proof.
  split.
  - unfold StatusValue_new. now rewrite lower_idem.
  - intros sv Hsv. apply StatusValue_new_ok in Hsv. destruct Hsv as [Hin ->].
    cbn [value date details is_strikethrough reason text status_base].
    repeat split; auto.
    apply StatusValue_new_ok. now rewrite lower_idem.
Qed.
End StatusExtras.

(** ** The projections of the entity *)

Lemma for_each_filter_map (X Y : Type) (f : X -> option Y)
    (body : list Y -> X -> result (list Y)) :
  (forall acc x, body acc x = Ok (acc ++ option_list (f x))%list) ->
  forall xs acc, for_each xs body acc = Ok (acc ++ filter_map f xs)%list.
Proof.
  intros Hbody xs. induction xs as [|x xs IH]; intros acc; simpl.
  - now rewrite app_nil_r.
  - rewrite Hbody. simpl. rewrite IH, <- app_assoc.
    now destruct (f x).
Qed.

Lemma rstrip_by_last (p : ascii -> bool) (s r : string) (c : ascii) :
  rstrip_by p s = r ++ String c "" -> p c = false.
Proof.
  revert r. induction s as [|a s IH]; intros r; simpl.
  - destruct r; discriminate.
  - destruct (rstrip_by p s) as [|b q] eqn:E.
    + destruct (p a) eqn:Pa.
      * destruct r; discriminate.
      * destruct r as [|a' r]; simpl; [now intros [= <-]|].
        intros [= _ Hr]. destruct r; discriminate.
    + destruct r as [|a' r]; simpl; [discriminate|].
      intros [= _ Hr]. now apply IH with r.
Qed.

(** No stripped text ends with a newline. *)
Lemma raw_text_no_newline (fv : mdml.FieldValue) (r : string) :
  raw_text fv <> r ++ newline_text.
Proof.
  intros E. unfold raw_text, strip in E.
  apply rstrip_by_last in E. discriminate.
Qed.

Section ProjectionExtras.
Context `{PyRepr}.

(** X14. [get_type] raises [MissingFieldError] when the [type] field is
    absent.  When it is present, the stripped text is compared, in
    lowercase, with the five types: if it is one of them [get_type] returns
    it, otherwise [get_type] raises [InvalidTypeError].  What [get_type]
    returns is always one of the five types, in lowercase. *)
Theorem get_type_resolution (self : TelegramEntity) :
  (mdml.get_value (doc self) "type" = None ->
   get_type self = Raise (mkExn MissingFieldError "Field 'type' is required")) /\
  (forall fv, mdml.get_value (doc self) "type" = Some fv ->
     (In (lower (raw_text fv)) VALID_TYPES ->
      get_type self = Ok (lower (raw_text fv))) /\
     (~ In (lower (raw_text fv)) VALID_TYPES ->
      exists msg, get_type self = Raise (mkExn InvalidTypeError msg))) /\
  (forall t, get_type self = Ok t -> In t VALID_TYPES /\ lower t = t).
Proof.
  unfold get_type. destruct (mdml.get_value (doc self) "type") as [fv|].
  - fold (raw_text fv).
    destruct (existsb (String.eqb (lower (raw_text fv))) VALID_TYPES) eqn:E;
      cbn [negb].
    + apply existsb_eqb_In in E.
      split; [discriminate|]. split.
      * intros fv' [= <-]. split; [reflexivity | tauto].
      * intros t [= <-]. split; [exact E | apply lower_idem].
    + split; [discriminate|]. split; [|discriminate].
      intros fv' [= <-]. split.
      * intros Hin. apply existsb_eqb_In in Hin. congruence.
      * intros _. now eexists.
  - split; [reflexivity|]. split; discriminate.
Qed.

Lemma UsernameValue_new_fields (v : string) (d : option datetime)
    (t : option string) (s : bool) (u : UsernameValue) :
  UsernameValue_new v d t s = Ok u ->
  date u = d /\ details u = t /\ is_strikethrough u = s.
Proof.
  intros Hu. apply UsernameValue_accepts_facts in Hu. destruct Hu as [-> _].
  repeat split.
Qed.

(** X15. Every handle of the projected handle history is 5 to 32
    characters among letters, digits and the underscore, no newline
    included, and comes from an item of the [username] field: its display
    form is the stripped text of the item, and its date, details and
    strikethrough flag are those of the item. *)
Theorem get_usernames_wellformed (self : TelegramEntity)
    (c : HistoricalCollection UsernameValue) (u : UsernameValue) :
  get_usernames self = Ok c -> In u (values c) ->
  all_chars is_word_char (value u) = true /\
  (5 <= String.length (value u) <= 32)%nat /\
  exists field fv,
    mdml.get_field (doc self) "username" = Some field /\
    In fv (mdml.values field) /\
    with_at u = raw_text fv /\
    date u = mdml.datetime_obj fv /\
    details u = mdml.details fv /\
    is_strikethrough u = mdml.is_strikethrough fv.
Proof.
  rewrite get_usernames_eq. intros Heq Hin. injection Heq as <-.
  unfold HistoricalCollection_init in Hin. cbn [values] in Hin.
  apply sorted_In in Hin.
  destruct (mdml.get_field (doc self) "username") as [field|]; [|contradiction].
  apply filter_map_In in Hin. destruct Hin as (fv & Hfv & Hu).
  apply spec_handle_of_some in Hu. destruct Hu as [Hat Hu].
  assert (Hraw := startswith_first _ _ Hat).
  destruct (UsernameValue_new_fields _ _ _ _ Hu) as (Hd & Ht & Hs).
  apply UsernameValue_accepts_facts in Hu. rewrite Hat in Hu.
  destruct Hu as [-> (name & Hn & Hlen & Hp)].
  cbn [value username_base] in *.
  destruct Hp as [Hp|Hp].
  - rewrite Hp in Hraw |- *. repeat split; try tauto.
    exists field, fv. unfold with_at. cbn [value username_base].
    rewrite Hraw. repeat split; auto.
  - exfalso. rewrite Hp in Hraw.
    apply (raw_text_no_newline fv (String "@" name)). exact Hraw.
Qed.
End ProjectionExtras.

Section InviteExtras.
Context `{PyRepr}.

Lemma get_invites_body_eq (invites : list InviteValue) (fv : mdml.FieldValue) :
  get_invites_body invites fv = Ok (invites ++ option_list (spec_invite_of fv))%list.
Proof.
  unfold get_invites_body, spec_invite_of, invite_text. fold (raw_text fv).
  generalize (if truthy_text (mdml.link_url fv) then mdml.link_url fv
              else if truthy_text (Some (mdml.value fv)) then Some (raw_text fv)
              else None).
  intros [[|c raw]|].
  - cbn. now rewrite app_nil_r.
  - remember (contains (String c raw) "t.me/+") as b1 eqn:E1.
    remember (startswith (String c raw) "+") as b2 eqn:E2.
    clear E1 E2.
    assert (Hnew : try_except
              (invite <- InviteValue_new (String c raw) (mdml.datetime_obj fv)
                           (mdml.details fv) (mdml.is_strikethrough fv) ;;
               Ok (invites ++ [invite])%list)
              [(InvalidInviteError, fun _ => Ok invites)]
            = Ok (invites ++ option_list
                    match InviteValue_new (String c raw) (mdml.datetime_obj fv)
                            (mdml.details fv) (mdml.is_strikethrough fv) with
                    | Ok i => Some i
                    | Raise _ => None
                    end)%list).
    { destruct (InviteValue_new _ _ _ _) as [i|e] eqn:E;
        cbn [bind try_except option_list]; [reflexivity|].
      unfold handle. rewrite (InviteValue_new_raises _ _ _ _ E).
      cbn. now rewrite app_nil_r. }
    destruct b1, b2; cbn [negb andb orb]; try exact Hnew.
    cbn [option_list]. now rewrite app_nil_r.
  - cbn [option_list]. now rewrite app_nil_r.
Qed.

Lemma get_invites_eq (self : TelegramEntity) :
  get_invites self
  = Ok (HistoricalCollection_init
          match mdml.get_field (doc self) "invite" with
          | Some field => filter_map spec_invite_of (mdml.values field)
          | None => []
          end).
Proof.
  unfold get_invites. destruct (mdml.get_field (doc self) "invite"); [|reflexivity].
  now rewrite (for_each_filter_map spec_invite_of get_invites_body get_invites_body_eq).
Qed.

Lemma spec_invite_of_some (fv : mdml.FieldValue) (i : InviteValue) :
  spec_invite_of fv = Some i <->
  exists raw,
    invite_text fv = Some raw /\
    (contains raw "t.me/+" = true \/ startswith raw "+" = true) /\
    InviteValue_new raw (mdml.datetime_obj fv) (mdml.details fv)
      (mdml.is_strikethrough fv) = Ok i.
Proof.
  unfold spec_invite_of. destruct (invite_text fv) as [raw|].
  - destruct (contains raw "t.me/+" || startswith raw "+") eqn:E.
    + apply orb_true_iff in E.
      destruct (InviteValue_new _ _ _ _) as [i'|e] eqn:En; split.
      * intros [= ->]. now exists raw.
      * intros (raw' & [= <-] & _ & Hi). congruence.
      * discriminate.
      * intros (raw' & [= <-] & _ & Hi). congruence.
    + apply orb_false_iff in E. split; [discriminate|].
      intros (raw' & [= <-] & [Hc|Hs] & _); destruct E; congruence.
  - split; [discriminate|]. now intros (raw & Hr & _).
Qed.

(** X16. The invite projection keeps exactly the valid invites.  Each
    item is read through its link target when it has one, and through its
    stripped text otherwise; an item whose text holds ["t.me/+"] or starts
    with ["+"], and passes the validation of invites, gives one invite
    value; every other item is skipped or dropped, the loop going on with
    the items that follow.  [get_invites] never raises. *)
Theorem get_invites_projection (self : TelegramEntity) :
  exists c,
    get_invites self = Ok c /\
    (mdml.get_field (doc self) "invite" = None -> values c = []) /\
    (forall field, mdml.get_field (doc self) "invite" = Some field ->
       c = HistoricalCollection_init (filter_map spec_invite_of (mdml.values field)) /\
       (forall i, In i (values c) <->
          exists fv raw, In fv (mdml.values field) /\
            invite_text fv = Some raw /\
            (contains raw "t.me/+" = true \/ startswith raw "+" = true) /\
            InviteValue_new raw (mdml.datetime_obj fv) (mdml.details fv)
              (mdml.is_strikethrough fv) = Ok i) /\
       (len c <= List.length (mdml.values field))%nat).
Proof.
  rewrite get_invites_eq. eexists. split; [reflexivity|]. split.
  - now intros ->.
  - intros field ->. split; [reflexivity|].
    assert (Hperm := sorted_perm sort_key true
                       (filter_map spec_invite_of (mdml.values field))).
    split.
    + intros i. unfold HistoricalCollection_init. cbn [values].
      rewrite sorted_In, filter_map_In. split.
      * intros (fv & Hin & Hfv). apply spec_invite_of_some in Hfv.
        destruct Hfv as (raw & Hfv). now exists fv, raw.
      * intros (fv & raw & Hin & Hfv). exists fv. split; [exact Hin|].
        apply spec_invite_of_some. now exists raw.
    + unfold len, HistoricalCollection_init. cbn [values].
      rewrite (Permutation_length Hperm). apply filter_map_length.
Qed.

Lemma raw_hash_parts (h : string) :
  re_match_hash h = true -> invite_parts h = ("https://t.me/+" ++ h, h).
Proof.
  intros Hm. unfold invite_parts.
  rewrite (contains_startswith _ _ (hash_contains_no h "https://t.me/+" Hm eq_refl)).
  rewrite (contains_startswith _ _ (hash_contains_no h "http://t.me/+" Hm eq_refl)).
  now rewrite (hash_not_plus _ Hm).
Qed.

(** X17. A raw hash is no invite for [get_invites]: an [invite] field
    whose items have no link target and a stripped text that is a valid
    hash projects to the empty history, although [InviteValue] constructs a
    value from each of these texts. *)
Theorem get_invites_skips_raw_hashes (self : TelegramEntity) (field : mdml.Field) :
  mdml.get_field (doc self) "invite" = Some field ->
  (forall fv, In fv (mdml.values field) ->
     truthy_text (mdml.link_url fv) = false /\
     re_match_hash (raw_text fv) = true) ->
  get_invites self = Ok (HistoricalCollection_init []) /\
  (forall fv, In fv (mdml.values field) ->
     exists i, InviteValue_new (raw_text fv) (mdml.datetime_obj fv)
                 (mdml.details fv) (mdml.is_strikethrough fv) = Ok i
               /\ hash i = raw_text fv).
Proof.
  intros Hf Hall. split.
  - rewrite get_invites_eq, Hf. f_equal. f_equal.
    assert (Hnone : forall l, (forall fv, In fv l -> spec_invite_of fv = None) ->
                              filter_map spec_invite_of l = []).
    { induction l as [|fv l IH]; intros Hl; simpl; [reflexivity|].
      rewrite (Hl fv (or_introl eq_refl)). apply IH. intros fv' Hfv'.
      apply Hl. now right. }
    apply Hnone. intros fv Hfv. destruct (Hall fv Hfv) as [Hlink Hm].
    unfold spec_invite_of, invite_text. rewrite Hlink.
    destruct (truthy_text (Some (mdml.value fv))); [|reflexivity].
    rewrite (hash_contains_no (raw_text fv) "t.me/+" Hm eq_refl).
    now rewrite (hash_not_plus _ Hm).
  - intros fv Hfv. destruct (Hall fv Hfv) as [_ Hm].
    rewrite InviteValue_new_parts, (raw_hash_parts _ Hm). cbn [fst snd].
    rewrite Hm. cbn [negb]. eexists. split; reflexivity.
Qed.

(** X18. Every hash that [get_hashes] returns on the projected invite
    history, with either value of [allow_strikethrough], is accepted by
    the hash pattern. *)
Theorem get_invites_hashes_valid (self : TelegramEntity)
    (c : HistoricalCollection InviteValue) (allow : bool) (h : string) :
  get_invites self = Ok c -> In h (get_hashes c allow) ->
  re_match_hash h = true.
Proof.
  rewrite get_invites_eq. intros Heq Hin. injection Heq as <-.
  unfold get_hashes in Hin. apply in_map_iff in Hin.
  destruct Hin as (i & <- & Hi).
  assert (Hstored : In i (values (HistoricalCollection_init
            match mdml.get_field (doc self) "invite" with
            | Some field => filter_map spec_invite_of (mdml.values field)
            | None => []
            end))).
  { destruct allow; [exact Hi|].
    unfold active in Hi. apply sorted_In, filter_In in Hi. tauto. }
  unfold HistoricalCollection_init in Hstored. cbn [values] in Hstored.
  apply sorted_In in Hstored.
  destruct (mdml.get_field (doc self) "invite") as [field|]; [|contradiction].
  apply filter_map_In in Hstored. destruct Hstored as (fv & _ & Hfv).
  apply spec_invite_of_some in Hfv. destruct Hfv as (raw & _ & _ & Hnew).
  exact (proj1 (InviteValue_invariant_facts _ _ _ _ Hnew)).
Qed.

(** X19. [get_username] and [get_invite] never raise.  With the default
    [allow_strikethrough=False], what they return is a value of the
    projected history that is not strikethrough, and they return nothing
    exactly when every value of the projected history is strikethrough. *)
Theorem current_handle_and_invite (self : TelegramEntity) :
  exists us ivs,
    get_usernames self = Ok us /\
    get_invites self = Ok ivs /\
    (forall allow, get_username self allow = Ok (latest us allow)) /\
    (forall allow, get_invite self allow = Ok (latest ivs allow)) /\
    (forall u, get_username self false = Ok (Some u) ->
       In u (values us) /\ is_strikethrough u = false) /\
    (forall i, get_invite self false = Ok (Some i) ->
       In i (values ivs) /\ is_strikethrough i = false) /\
    (get_username self false = Ok None <->
       forall u, In u (values us) -> is_strikethrough u = true) /\
    (get_invite self false = Ok None <->
       forall i, In i (values ivs) -> is_strikethrough i = true).
Proof.
  assert (Hus := get_usernames_eq self). assert (Hivs := get_invites_eq self).
  match type of Hus with _ = Ok ?c => set (us := c) in * end.
  match type of Hivs with _ = Ok ?c => set (ivs := c) in * end.
  exists us, ivs.
  assert (Hu : forall allow, get_username self allow = Ok (latest us allow))
    by (intros allow; unfold get_username; now rewrite Hus).
  assert (Hi : forall allow, get_invite self allow = Ok (latest ivs allow))
    by (intros allow; unfold get_invite; now rewrite Hivs).
  assert (Hstruck : forall (B : Type) (HB : Historical B) (v : B),
            is_candidate false v = false <-> struck v = true).
  { intros B HB v. unfold is_candidate. simpl. apply negb_false_iff. }
  repeat split; auto.
  - rewrite Hu in H0. injection H0 as H0.
    now apply (proj2 (latest_result_facts us false)).
  - rewrite Hu in H0. injection H0 as H0.
    destruct (proj2 (latest_result_facts us false) u H0) as (_ & Hc & _).
    unfold is_candidate in Hc. simpl in Hc. now apply negb_true_iff in Hc.
  - rewrite Hi in H0. injection H0 as H0.
    now apply (proj2 (latest_result_facts ivs false)).
  - rewrite Hi in H0. injection H0 as H0.
    destruct (proj2 (latest_result_facts ivs false) i H0) as (_ & Hc & _).
    unfold is_candidate in Hc. simpl in Hc. now apply negb_true_iff in Hc.
  - rewrite Hu. intros [= Hn] u Hin.
    apply (Hstruck _ _ u). now apply (proj1 (proj1 (latest_result_facts us false) ) Hn).
  - intros Hall. rewrite Hu. f_equal.
    apply (proj1 (latest_result_facts us false)). intros u Hin.
    apply Hstruck. now apply Hall.
  - rewrite Hi. intros [= Hn] i Hin.
    apply (Hstruck _ _ i). now apply (proj1 (proj1 (latest_result_facts ivs false)) Hn).
  - intros Hall. rewrite Hi. f_equal.
    apply (proj1 (latest_result_facts ivs false)). intros i Hin.
    apply Hstruck. now apply Hall.
Qed.
End InviteExtras.

(** ** Validation and the textual form of the entity *)

Section ValidateExtras.
Context `{PyRepr}.

Lemma get_id_raise_msg (self : TelegramEntity) (e : exn) :
  get_id self = Raise e ->
  exists r, e = mkExn InvalidFieldError ("Invalid ID format: " ++ r).
Proof.
  destruct (mdml.get_value (doc self) "id") as [fv|] eqn:Hv.
  - rewrite (get_id_present _ Hv).
    destruct (py_int (raw_text fv)) as [n|e'] eqn:E; [discriminate|].
    rewrite (py_int_raises _ E). intros [= <-]. now eexists.
  - unfold get_id. rewrite Hv. discriminate.
Qed.

Lemma get_type_raise_msg (self : TelegramEntity) (e : exn) :
  get_type self = Raise e ->
  (mdml.get_value (doc self) "type" = None
   /\ e = mkExn MissingFieldError "Field 'type' is required") \/
  (mdml.get_value (doc self) "type" <> None
   /\ exists r, e = mkExn InvalidTypeError ("Invalid type: " ++ r)).
Proof.
  unfold get_type. destruct (mdml.get_value (doc self) "type") as [fv|].
  - destruct (existsb _ _); cbn [negb]; [discriminate|].
    intros [= <-]. right. split; [discriminate | now eexists].
  - intros [= <-]. now left.
Qed.

(** X20. [validate] returns at most three warnings, and returns the
    empty list exactly when the type resolves and either the identifier
    resolves to an integer or the [id] field is absent while the handle
    history or the invite history is not empty. *)
Theorem validate_clean (self : TelegramEntity) :
  exists ws us ivs,
    validate self = Ok ws /\
    get_usernames self = Ok us /\
    get_invites self = Ok ivs /\
    (List.length ws <= 3)%nat /\
    (ws = [] <->
       (exists t, get_type self = Ok t) /\
       ((exists n, get_id self = Ok (Some n)) \/
        (get_id self = Ok None /\ (len us <> 0%nat \/ len ivs <> 0%nat)))).
Proof.
  assert (Hus := get_usernames_eq self). assert (Hivs := get_invites_eq self).
  match type of Hus with _ = Ok ?c => set (us := c) in * end.
  match type of Hivs with _ = Ok ?c => set (ivs := c) in * end.
  eexists. exists us, ivs. split; [exact (validate_eq _ Hus Hivs)|].
  split; [exact Hus|]. split; [exact Hivs|].
  assert (Hlen : forall n, (0 <? n)%nat = false <-> n = 0%nat).
  { intros n. rewrite Nat.ltb_ge. lia. }
  destruct (get_type self) as [t|e1]; destruct (get_id self) as [[n|]|e2];
    destruct (0 <? len us)%nat eqn:E1; destruct (0 <? len ivs)%nat eqn:E2;
    try rewrite Hlen in E1; try rewrite Hlen in E2;
    try (apply Nat.ltb_lt in E1); try (apply Nat.ltb_lt in E2);
    cbn [negb andb app List.length]; (split; [lia|]);
    (split;
     [ try discriminate; intros _; (split; [now eexists|]);
       first [ left; now eexists | right; split; [reflexivity|lia] ]
     | try reflexivity; intros [[t' Ht] [[n' Hn] | [Hn Hl]]];
       try discriminate; lia ]).
Qed.

(** X21. [validate] reports in a fixed order.  When [get_type] raises,
    its message is the first warning; the missing-type warning is among
    the warnings exactly when the [type] field is absent; when [get_id]
    raises, its message is among the warnings. *)
Theorem validate_reports (self : TelegramEntity) :
  exists ws,
    validate self = Ok ws /\
    (forall e, get_type self = Raise e -> hd_error ws = Some (str_exn e)) /\
    (In "Field 'type' is required" ws
     <-> mdml.get_value (doc self) "type" = None) /\
    (forall e, get_id self = Raise e -> In (str_exn e) ws).
Proof.
  assert (Hus := get_usernames_eq self). assert (Hivs := get_invites_eq self).
  eexists. split; [exact (validate_eq _ Hus Hivs)|].
  assert (Hnid : "Field 'type' is required" <> no_identifier_warning)
    by discriminate.
  assert (Hidm : forall e, get_id self = Raise e ->
                           exn_msg e <> "Field 'type' is required").
  { intros e He. destruct (get_id_raise_msg _ He) as (r & ->). simpl. discriminate. }
  split; [|split].
  - intros e ->. reflexivity.
  - rewrite !in_app_iff. split.
    + intros [Hin|[Hin|Hin]].
      * destruct (get_type self) as [t|e] eqn:Et; [contradiction|].
        destruct Hin as [Hin|[]].
        destruct (get_type_raise_msg _ Et) as [[Hv _]|[_ (r & ->)]]; [exact Hv|].
        simpl in Hin. discriminate.
      * destruct (get_id self) as [o|e] eqn:Ei; [contradiction|].
        destruct Hin as [Hin|[]]. now apply Hidm in Hin.
      * destruct (_ && _ && _); [|contradiction].
        destruct Hin as [Hin|[]]. congruence.
    + intros Hv. left. unfold get_type. rewrite Hv. now left.
  - intros e ->. rewrite !in_app_iff. right. left. now left.
Qed.
End ValidateExtras.

Section ReprExtras.
Context `{PyRepr} `{PathName}.

(** X22. The textual form of an entity is not safe to compute: it raises
    the error of [get_id] whenever [get_id] raises, an invalid or missing
    type being passed over in silence; when [get_id] returns, the
    textual form is a text that starts with ["TelegramEntity("]. *)
Theorem TelegramEntity_repr_raises (self : TelegramEntity) :
  (forall e, get_id self = Raise e -> TelegramEntity_repr self = Raise e) /\
  (forall o, get_id self = Ok o ->
     exists body, TelegramEntity_repr self = Ok ("TelegramEntity(" ++ body)).
Proof.
  unfold TelegramEntity_repr. split.
  - intros e ->. reflexivity.
  - intros o ->. cbn [bind].
    assert (Hu : get_username self false
                 = Ok (latest (HistoricalCollection_init
                         match mdml.get_field (doc self) "username" with
                         | Some field => filter_map spec_handle_of (mdml.values field)
                         | None => []
                         end) false))
      by (unfold get_username; now rewrite get_usernames_eq).
    rewrite Hu.
    destruct (get_type_cases self) as [(t & ->)|(cls & msg & -> & Hcls & _)].
    + cbn [bind try_except]. now eexists.
    + destruct Hcls as [-> | ->]; cbn; now eexists.
Qed.
End ReprExtras.

(** ** The status history *)

Section StatusProjection.
Context `{PyRepr} `{SubItems}.

Lemma get_statuses_body_eq (statuses : list StatusValue) (fv : mdml.FieldValue) :
  get_statuses_body statuses fv
  = Ok (statuses ++ option_list (spec_status_of fv))%list.
Proof.
  unfold get_statuses_body, spec_status_of. fold (raw_text fv).
  assert (Hpair :
    match sub_items fv with
    | Some ((_ :: _) as items) =>
        (match dict_get "reason" items with
         | Some sub => Some (strip (strip_chars (mdml.value sub) "`"))
         | None => None
         end,
         match dict_get "text" items with
         | Some sub => Some (strip (strip_chars (mdml.value sub) "`"))
         | None => None
         end)
    | _ => (None, None)
    end = (sub_text fv "reason", sub_text fv "text")).
  { unfold sub_text, raw_text. now destruct (sub_items fv) as [[|kv items]|]. }
  cbv zeta. rewrite Hpair.
  destruct (StatusValue_new _ _ _ _ _ _) as [sv|e] eqn:E;
    cbn [bind try_except option_list]; [reflexivity|].
  unfold handle. rewrite (StatusValue_new_raises _ _ _ _ _ _ E).
  cbn. now rewrite app_nil_r.
Qed.

Lemma get_statuses_eq (self : TelegramEntity) :
  get_statuses self
  = Ok (HistoricalCollection_init
          match mdml.get_field (doc self) "status" with
          | Some field => filter_map spec_status_of (mdml.values field)
          | None => []
          end).
Proof.
  unfold get_statuses. destruct (mdml.get_field (doc self) "status"); [|reflexivity].
  now rewrite (for_each_filter_map spec_status_of get_statuses_body
                 get_statuses_body_eq).
Qed.

Lemma spec_status_of_some (fv : mdml.FieldValue) (sv : StatusValue) :
  spec_status_of fv = Some sv <->
  In (lower (raw_text fv)) VALID_STATUSES /\
  sv = mkStatusValue
         (mkHistoricalValue (lower (raw_text fv)) (mdml.datetime_obj fv)
            (mdml.details fv) (mdml.is_strikethrough fv))
         (sub_text fv "reason") (sub_text fv "text").
Proof.
  unfold spec_status_of.
  destruct (StatusValue_new _ _ _ _ _ _) as [sv'|e] eqn:E.
  - apply StatusValue_new_ok in E. rewrite lower_idem in E. destruct E as [Hin ->].
    split; [intros [= <-]; auto | intros [_ ->]; reflexivity].
  - split; [discriminate|]. intros [Hin ->]. exfalso.
    assert (Hok : StatusValue_new (lower (raw_text fv)) (mdml.datetime_obj fv)
                    (mdml.details fv) (mdml.is_strikethrough fv)
                    (sub_text fv "reason") (sub_text fv "text")
                  = Ok (mkStatusValue
                          (mkHistoricalValue (lower (raw_text fv)) (mdml.datetime_obj fv)
                             (mdml.details fv) (mdml.is_strikethrough fv))
                          (sub_text fv "reason") (sub_text fv "text"))).
    { apply StatusValue_new_ok. rewrite lower_idem. auto. }
    congruence.
Qed.

Lemma get_statuses_In (self : TelegramEntity) (sv : StatusValue) :
  In sv (values (HistoricalCollection_init
                   match mdml.get_field (doc self) "status" with
                   | Some field => filter_map spec_status_of (mdml.values field)
                   | None => []
                   end))
  <-> exists field fv,
        mdml.get_field (doc self) "status" = Some field /\
        In fv (mdml.values field) /\
        spec_status_of fv = Some sv.
Proof.
  unfold HistoricalCollection_init. cbn [values]. rewrite sorted_In.
  destruct (mdml.get_field (doc self) "status") as [field|].
  - rewrite filter_map_In. split.
    + intros (fv & Hin & Hfv). now exists field, fv.
    + intros (field' & fv & [= <-] & Hin & Hfv). now exists fv.
  - split; [contradiction|]. intros (field & fv & Hf & _). discriminate.
Qed.

(** X23. [get_statuses] never raises and keeps exactly the items whose
    stripped text is, in lowercase, one of the five states.  Each status of
    the projected history stores that lowercase state with the date, the
    details and the strikethrough flag of its item, and for reason and
    text the stripped text of the sub-fields [reason] and [text] of the
    item, when the item has them.  [get_status] is [latest] on this
    history. *)
Theorem get_statuses_projection (self : TelegramEntity) :
  exists c,
    get_statuses self = Ok c /\
    (forall allow, get_status self allow = Ok (latest c allow)) /\
    (forall sv, In sv (values c) <->
       exists field fv,
         mdml.get_field (doc self) "status" = Some field /\
         In fv (mdml.values field) /\
         In (lower (raw_text fv)) VALID_STATUSES /\
         sv = mkStatusValue
                (mkHistoricalValue (lower (raw_text fv)) (mdml.datetime_obj fv)
                   (mdml.details fv) (mdml.is_strikethrough fv))
                (sub_text fv "reason") (sub_text fv "text")).
Proof.
  eexists. split; [apply get_statuses_eq|]. split.
  - intros allow. unfold get_status. now rewrite get_statuses_eq.
  - intros sv. rewrite get_statuses_In.
    split; intros (field & fv & Hf & Hin & Hsv); exists field, fv;
      (split; [exact Hf|]); (split; [exact Hin|]); now apply spec_status_of_some.
Qed.

(** X24. On the projected status history [has_status] compares with the
    lowercase states: it holds of a status exactly when the status is one
    of the five states and is the lowercase stripped text of some item of
    the [status] field.  A status in another letter case is not found. *)
Theorem has_status_exact (self : TelegramEntity)
    (c : HistoricalCollection StatusValue) (status : string) :
  get_statuses self = Ok c ->
  (has_status c status = true <->
     In status VALID_STATUSES /\
     exists field fv,
       mdml.get_field (doc self) "status" = Some field /\
       In fv (mdml.values field) /\
       lower (raw_text fv) = status) /\
  (lower status <> status -> has_status c status = false).
Proof.
  rewrite get_statuses_eq. intros Heq. injection Heq as <-.
  assert (Hiff : has_status
      (HistoricalCollection_init
         match mdml.get_field (doc self) "status" with
         | Some field => filter_map spec_status_of (mdml.values field)
         | None => []
         end) status = true <->
     In status VALID_STATUSES /\
     exists field fv,
       mdml.get_field (doc self) "status" = Some field /\
       In fv (mdml.values field) /\
       lower (raw_text fv) = status).
  { unfold has_status. rewrite existsb_exists. split.
    - intros (sv & Hin & E). apply String.eqb_eq in E.
      apply get_statuses_In in Hin. destruct Hin as (field & fv & Hf & Hfv & Hsv).
      apply spec_status_of_some in Hsv. destruct Hsv as [Hvalid ->].
      cbn [value status_base] in E. subst status.
      split; [exact Hvalid|]. now exists field, fv.
    - intros (Hvalid & field & fv & Hf & Hfv & <-).
      eexists. split.
      + apply get_statuses_In. exists field, fv. split; [exact Hf|].
        split; [exact Hfv|]. apply spec_status_of_some. split; [exact Hvalid|reflexivity].
      + cbn [value status_base]. apply String.eqb_refl. }
  split; [exact Hiff|].
  intros Hcase. apply not_true_iff_false. intros Htrue.
  apply Hiff in Htrue. destruct Htrue as (_ & field & fv & _ & _ & <-).
  apply Hcase, lower_idem.
Qed.
End StatusProjection.

(** ** The further statements on concrete data *)

Lemma init_keeps_values_witness :
  len (HistoricalCollection_init tied_history) = 5%nat /\
  (bool_of (HistoricalCollection_init tied_history) = true <-> tied_history <> []).
Proof.
  exact (proj2 (@init_keeps_values HistoricalValue _ tied_history)).
Defined.

Lemma init_order_witness :
  (forall v, In v tied_history -> date_of v <> Some datetime_min) /\
  (forall x y,
     occurs_before x y (values (HistoricalCollection_init tied_history)) ->
     undated x = true -> dated y = false).
Proof.
  assert (Hmin : forall v, In v tied_history -> date_of v <> Some datetime_min).
  { intros v Hv. simpl in Hv.
    repeat (destruct Hv as [<-|Hv]; [discriminate|]). contradiction. }
  split; [exact Hmin|].
  pose proof (@init_order HistoricalValue _ tied_history) as Hord.
  cbv zeta in Hord. destruct Hord as (_ & _ & _ & Hfirst).
  exact (Hfirst Hmin).
Defined.

Lemma active_of_constructed_witness :
  active (HistoricalCollection_init tied_history)
  = values (HistoricalCollection_init
              (filter (fun v => negb (struck v)) tied_history)).
Proof.
  exact (proj1 (@active_of_constructed HistoricalValue _ tied_history)).
Defined.

Lemma latest_result_witness :
  (forall v, In v (values (HistoricalCollection_init superseded_history)) ->
             is_candidate false v = false) /\
  latest (HistoricalCollection_init superseded_history) false = None.
Proof.
  assert (Hall : forall v,
            In v (values (HistoricalCollection_init superseded_history)) ->
            is_candidate false v = false).
  { intros v Hv. vm_compute in Hv.
    repeat (destruct Hv as [<-|Hv]; [reflexivity|]). contradiction. }
  split; [exact Hall|].
  exact (proj2 (proj1 (@latest_result HistoricalValue _
                         (HistoricalCollection_init superseded_history) false))
           Hall).
Defined.

Lemma oldest_result_witness :
  oldest (HistoricalCollection_init (@nil HistoricalValue)) = None.
Proof.
  exact (proj2 (proj1 (@oldest_result HistoricalValue _
                         (HistoricalCollection_init (@nil HistoricalValue))))
           eq_refl).
Defined.

Lemma oldest_not_after_latest_witness :
  latest (HistoricalCollection_init tied_history) true
    = Some (mkHistoricalValue "struck" (Some 20%N) None true) /\
  oldest (HistoricalCollection_init tied_history)
    = Some (mkHistoricalValue "earlier" (Some 10%N) None false) /\
  (10 <= 20)%N.
Proof.
  split; [reflexivity|]. split; [reflexivity|].
  apply (@oldest_not_after_latest HistoricalValue _
           (HistoricalCollection_init tied_history)
           (mkHistoricalValue "struck" (Some 20%N) None true)
           (mkHistoricalValue "earlier" (Some 10%N) None false));
    reflexivity.
Defined.

Lemma UsernameValue_accepts_witness :
  @UsernameValue_new quoting ("@valid" ++ newline_text) None None false
  = Ok (mkUsernameValue
          (mkHistoricalValue ("valid" ++ newline_text) None None false)).
Proof.
  apply (@UsernameValue_accepts quoting ("@valid" ++ newline_text) None None false).
  split; [reflexivity|].
  exists "valid". split; [reflexivity|]. split; [simpl; lia|]. now right.
Defined.

Lemma UsernameValue_reconstruct_witness :
  @UsernameValue_new quoting (with_at valid123) None None false = Ok valid123 /\
  @UsernameValue_new quoting (value valid123) None None false = Ok valid123.
Proof.
  apply (@UsernameValue_reconstruct quoting "@valid123" None None false valid123).
  reflexivity.
Defined.

Lemma InviteValue_invariant_witness :
  re_match_hash (hash invite_AbC) = true /\
  url invite_AbC = "https://t.me/+" ++ hash invite_AbC.
Proof.
  destruct (@InviteValue_invariant quoting "+AbC-_d" None None false invite_AbC
              eq_refl) as (Hm & _ & _ & _ & _ & _ & Hurl).
  split; [exact Hm|]. apply Hurl; reflexivity.
Defined.

Lemma InviteValue_reconstruct_witness :
  @InviteValue_new quoting (url invite_AbC) None None false = Ok invite_AbC.
Proof.
  apply (@InviteValue_reconstruct quoting "+AbC-_d" None None false invite_AbC).
  reflexivity.
Defined.

Lemma InviteValue_http_witness :
  re_match_hash "AbC-_d" = true /\
  @InviteValue_new quoting "http://t.me/+AbC-_d" None None false
  = Ok (mkInviteValue
          (mkHistoricalValue "http://t.me/+AbC-_d" None None false) "AbC-_d").
Proof.
  split; [reflexivity|].
  apply (@InviteValue_http quoting "AbC-_d" None None false). reflexivity.
Defined.

Lemma StatusValue_normalised_witness :
  @StatusValue_new quoting (lower "BANNED") None None false None None
  = @StatusValue_new quoting "BANNED" None None false None None /\
  In "banned" VALID_STATUSES.
Proof.
  destruct (@StatusValue_normalised quoting "BANNED" None None false None None)
    as [Hcase Hstored].
  split; [exact Hcase|].
  exact (proj1 (Hstored
                  (mkStatusValue (mkHistoricalValue "banned" None None false)
                     None None) eq_refl)).
Defined.

Lemma get_type_resolution_witness :
  @get_type quoting shouting_type_entity = Ok "channel".
Proof.
  destruct (@get_type_resolution quoting shouting_type_entity)
    as (_ & Hpresent & _).
  destruct (Hpresent (plain "`CHANNEL`") eq_refl) as [Hvalid _].
  apply Hvalid. right. right. left. reflexivity.
Defined.

Lemma get_usernames_wellformed_witness :
  all_chars is_word_char (value valid123) = true /\
  (5 <= String.length (value valid123) <= 32)%nat.
Proof.
  destruct (@get_usernames_wellformed quoting mixed_handles_entity
              (HistoricalCollection_init [valid123]) valid123 eq_refl
              (or_introl eq_refl)) as (Hchars & Hlen & _).
  split; [exact Hchars | exact Hlen].
Defined.

Lemma get_invites_projection_witness :
  exists c,
    @get_invites quoting invite_entity = Ok c /\ (len c <= 3)%nat.
Proof.
  destruct (@get_invites_projection quoting invite_entity)
    as (c & Hc & _ & Hfield).
  exists c. split; [exact Hc|].
  exact (proj2 (proj2 (Hfield _ eq_refl))).
Defined.

Lemma get_invites_skips_raw_hashes_witness :
  @get_invites quoting raw_hash_entity = Ok (HistoricalCollection_init []).
Proof.
  apply (@get_invites_skips_raw_hashes quoting raw_hash_entity
           (mdml.mkField [plain "`AbCdEfGh`"]) eq_refl).
  intros fv [<-|[]]. split; reflexivity.
Defined.

Lemma get_invites_hashes_valid_witness :
  re_match_hash "InviteHash123" = true.
Proof.
  apply (@get_invites_hashes_valid quoting invite_entity
           (HistoricalCollection_init
              [mkInviteValue
                 (mkHistoricalValue "https://t.me/+InviteHash123" (Some 20%N)
                    None false) "InviteHash123";
               mkInviteValue
                 (mkHistoricalValue "https://t.me/+OldInvite" (Some 10%N)
                    None true) "OldInvite"])
           false "InviteHash123").
  - reflexivity.
  - left. reflexivity.
Defined.

Lemma current_handle_and_invite_witness :
  exists i,
    @get_invite quoting invite_entity false = Ok (Some i) /\
    is_strikethrough i = false.
Proof.
  destruct (@current_handle_and_invite quoting invite_entity)
    as (us & ivs & _ & _ & _ & _ & _ & Hinvite & _).
  exists (mkInviteValue
            (mkHistoricalValue "https://t.me/+InviteHash123" (Some 20%N)
               None false) "InviteHash123").
  split; [reflexivity|].
  exact (proj2 (Hinvite _ eq_refl)).
Defined.

Lemma validate_clean_witness :
  exists ws, @validate quoting numeric_id_entity = Ok ws
             /\ (List.length ws <= 3)%nat.
Proof.
  destruct (@validate_clean quoting numeric_id_entity)
    as (ws & us & ivs & Hv & _ & _ & Hlen & _).
  exists ws. split; [exact Hv | exact Hlen].
Defined.

Lemma validate_reports_witness :
  exists ws, @validate quoting unparsable_id_entity = Ok ws
             /\ In "Invalid ID format: '`not_a_number`'" ws.
Proof.
  destruct (@validate_reports quoting unparsable_id_entity)
    as (ws & Hv & _ & _ & Hid).
  exists ws. split; [exact Hv|].
  apply (Hid (mkExn InvalidFieldError "Invalid ID format: '`not_a_number`'")).
  reflexivity.
Defined.

Lemma TelegramEntity_repr_raises_witness :
  @TelegramEntity_repr quoting whole_path unparsable_id_entity
  = Raise (mkExn InvalidFieldError "Invalid ID format: '`not_a_number`'").
Proof.
  apply (proj1 (@TelegramEntity_repr_raises quoting whole_path
                  unparsable_id_entity)).
  reflexivity.
Defined.

Lemma get_statuses_projection_witness :
  exists c,
    @get_statuses quoting sample_sub_items status_entity = Ok c /\
    @get_status quoting sample_sub_items status_entity false
    = Ok (latest c false).
Proof.
  destruct (@get_statuses_projection quoting sample_sub_items status_entity)
    as (c & Hc & Hlatest & _).
  exists c. split; [exact Hc | exact (Hlatest false)].
Defined.

Lemma has_status_exact_witness :
  lower "BANNED" <> "BANNED" /\
  has_status
    (HistoricalCollection_init
       (filter_map (@spec_status_of quoting sample_sub_items)
          [mdml.mkFieldValue "`banned`" (Some 20%N) None false None;
           mdml.mkFieldValue "`Active`" (Some 10%N) None true None;
           plain "gone"]))
    "BANNED" = false.
Proof.
  assert (Hcase : lower "BANNED" <> "BANNED") by discriminate.
  split; [exact Hcase|].
  apply (proj2 (@has_status_exact quoting sample_sub_items status_entity _
                  "BANNED" (@get_statuses_eq quoting sample_sub_items status_entity))).
  exact Hcase.
Defined.
